(** * Course-evaluation analysis ([evals/analyze_evals.py])

    A shallow embedding of the extraction, statistics, filtering and
    aggregation code of [analyze_evals.py], and the properties its
    specification states about it.

    Conventions of the embedding.
    - A Python [str] is a [string] whose characters are the code points
      below 256; [str.lower], [str.strip], [\s] and [\d] are the Python
      operations on that range, and strings order by code point.  A missing
      cell ([None]) reads as the empty string: it is falsy and is a key of no
      mapping.
    - A Python [int] is a [Z]; a [list] is a [list]; a [for] loop with an
      accumulator is a [fold_left] whose step appends at the end.
    - A [dict] / [defaultdict(list)] keyed by strings is a [gmap string _];
      the rows of [csv.DictReader] are kept as the item sequences
      [resp.items()] enumerates.
    - [statistics.mean] and [statistics.stdev] compute with exact fractions;
      they are embedded on [Q], the standard deviation being carried by its
      radicand (see [StdDev], and [stdev_value] for the real number it
      stands for).  The final rounding of the library to a binary float is
      left out.
    - [re.search] is a backtracking matcher (module [Regex]); [list.sort] is
      a stable insertion sort; paths of one directory order by file name,
      as they do on a POSIX system.
    - Printing is left out: the embedding keeps what [main] computes. *)

From Stdlib Require Import ZArith QArith Qreduction Qcanon List String Ascii Lia.
From Stdlib Require Import Permutation Sorted Reals Qreals.
From stdpp Require Import gmap strings list fin_maps sorting.

Open Scope string_scope.
Open Scope list_scope.
Open Scope Z_scope.

(* Let [simpl] compute string concatenation on constructors. *)
#[local] Arguments String.append !s1 s2 : simpl nomatch.

(** ** Python string primitives *)

Module Str.

(** [len(s)] *)
Definition len (s : string) : Z := Z.of_nat (String.length s).

(** Characters for which [str.isspace] holds, below 256: tab, line feed,
    vertical tab, form feed, carriage return, the four separators
    0x1c-0x1f, the space, next line (0x85) and the no-break space (0xa0). *)
Definition is_space (c : ascii) : bool :=
  let n := nat_of_ascii c in
  ((9 <=? n) && (n <=? 13) || (28 <=? n) && (n <=? 32)
   || (n =? 133) || (n =? 160))%nat.

(** The decimal digits below 256 are [0] to [9]. *)
Definition is_digit (c : ascii) : bool :=
  let n := nat_of_ascii c in ((48 <=? n) && (n <=? 57))%nat.

(** The upper-case letters below 256 are [A] to [Z] and 0xc0 to 0xde but
    the multiplication sign 0xd7; each has its lower case 32 above. *)
Definition lower_ascii (c : ascii) : ascii :=
  let n := nat_of_ascii c in
  if ((65 <=? n) && (n <=? 90)
      || (192 <=? n) && (n <=? 222) && negb (n =? 215))%nat
  then ascii_of_nat (n + 32) else c.

(** [s.lower()] *)
Fixpoint lower (s : string) : string :=
  match s with
  | EmptyString => EmptyString
  | String c s' => String (lower_ascii c) (lower s')
  end.

Fixpoint lstrip (s : string) : string :=
  match s with
  | EmptyString => EmptyString
  | String c s' => if is_space c then lstrip s' else s
  end.

Fixpoint rstrip (s : string) : string :=
  match s with
  | EmptyString => EmptyString
  | String c s' =>
      match rstrip s' with
      | EmptyString => if is_space c then EmptyString else String c EmptyString
      | r => String c r
      end
  end.

(** [s.strip()] *)
Definition strip (s : string) : string := rstrip (lstrip s).

Fixpoint startswith (p s : string) : bool :=
  match p, s with
  | EmptyString, _ => true
  | String a p', String b s' => if Ascii.eqb a b then startswith p' s' else false
  | String _ _, EmptyString => false
  end.

(** [needle in hay] *)
Fixpoint contains (needle hay : string) : bool :=
  startswith needle hay ||
  match hay with
  | EmptyString => false
  | String _ hay' => contains needle hay'
  end.

(** Truth value of a string: [bool(s)]. *)
Definition truthy (s : string) : bool :=
  match s with EmptyString => false | _ => true end.

(** Declarative reading of [in]: the needle is a contiguous part. *)
Definition Substring (needle hay : string) : Prop :=
  exists pre post, hay = pre +:+ needle +:+ post.

End Str.

(** ** Feedback filter *)

Definition positive_keywords : list string :=
  [ "great"; "excellent"; "helpful"; "enjoyed"; "liked"; "appreciated";
    "well"; "organized"; "clear"; "kind"; "willing"; "best"; "really";
    "engaging"; "informative"; "thorough"; "fair"; "supportive" ].

(** [sum(1 for kw in positive_keywords if kw in lower_comment)] *)
Definition positive_count (lower_comment : string) : Z :=
  fold_left Z.add
    (List.map (fun _ => 1)
       (List.filter (fun kw => Str.contains kw lower_comment) positive_keywords))
    0.

Definition filter_good_feedback_step (min_length : Z)
    (good_comments : list string) (comment : string) : list string :=
  if Str.len comment >=? min_length then
    let lower_comment := Str.lower comment in
    if positive_count lower_comment >=? 2
    then good_comments ++ [comment]
    else good_comments
  else good_comments.

Definition filter_good_feedback (comments : list string) (min_length : Z)
    : list string :=
  fold_left (filter_good_feedback_step min_length) comments [].

Definition default_min_length : Z := 50.

(** ** Category mappers *)

Definition LIKERT_MAP : gmap string Z :=
  list_to_map
    [ ("Strongly Agree", 5); ("Agree", 4); ("Uncertain", 3);
      ("Disagree", 2); ("Strongly Disagree", 1) ].

Definition EFFECTIVENESS_MAP : gmap string Z :=
  list_to_map
    [ ("Excellent", 5); ("Very Good", 4); ("Good", 3);
      ("Fair", 2); ("Very Poor", 1) ].

(** [QUESTION_LABELS.items()], in declaration order: full question text and
    its short label. *)
Definition QUESTION_LABELS : list (string * string) :=
  [ ("Learning outcomes for the course were clearly stated", "Outcomes Stated");
    ("The learning outcomes were effectively addressed in the course", "Outcomes Addressed");
    ("There were constructive interactions between the instructor and the students", "Interactions");
    ("The instructor was accessible for discussions about the course", "Accessible");
    ("I received feedback that improved my learning in this course", "Feedback");
    ("The course challenged me to do my best work", "Challenged");
    ("My experience in the course increased my interest in the subject matter", "Interest") ].

(** [QUESTION_LABELS.values()] *)
Definition question_labels : list string := List.map snd QUESTION_LABELS.

(** ** Raw records and the response extractor *)

(** One respondent: the (column name, answer) items of a [DictReader] row, in
    the order [resp.items()] yields them. *)
Definition row : Type := list (string * string).

(** [d[k].append(v)] on a [defaultdict(list)] *)
Definition dd_append (d : gmap string (list Z)) (k : string) (v : Z)
    : gmap string (list Z) :=
  <[k := default [] (d !! k) ++ [v]]> d.

(** [d[k].extend(vs)] on a [defaultdict(list)] *)
Definition dd_extend (d : gmap string (list Z)) (k : string) (vs : list Z)
    : gmap string (list Z) :=
  <[k := default [] (d !! k) ++ vs]> d.

(** [d[k]] read as a sequence, a missing key reading as the empty list. *)
Definition series (d : gmap string (list Z)) (k : string) : list Z :=
  default [] (d !! k).

Definition comments_marker : string := "_Comments".

(** Body of [for q_text, label in QUESTION_LABELS.items()]. *)
Definition likert_step (col value : string)
    (ratings : gmap string (list Z)) (q : string * string)
    : gmap string (list Z) :=
  let '(q_text, label) := q in
  if Str.contains q_text col && negb (Str.contains comments_marker col) then
    match LIKERT_MAP !! value with
    | Some n => dd_append ratings label n
    | None => ratings
    end
  else ratings.

(** The effectiveness branch of the column loop. *)
Definition effectiveness_step (col value : string) (eff : list Z) : list Z :=
  if Str.contains "overall effectiveness" (Str.lower col)
     && negb (Str.contains comments_marker col) then
    match EFFECTIVENESS_MAP !! value with
    | Some n => eff ++ [n]
    | None => eff
    end
  else eff.

(** Body of [for col, value in resp.items()]. *)
Definition extract_ratings_item (st : gmap string (list Z) * list Z)
    (item : string * string) : gmap string (list Z) * list Z :=
  let '(col, value) := item in
  (fold_left (likert_step col value) QUESTION_LABELS (fst st),
   effectiveness_step col value (snd st)).

Definition extract_ratings (responses : list row)
    : gmap string (list Z) * list Z :=
  fold_left (fun st resp => fold_left extract_ratings_item resp st)
    responses (∅, []).

(** ** Comment extractor *)

Definition no_answer : string := "D/A".

(** Body of [for col, value in resp.items()] in [extract_comments]. *)
Definition extract_comments_item (st : list string * list string)
    (item : string * string) : list string * list string :=
  let '(col, value) := item in
  if Str.contains "most beneficial" (Str.lower col)
     && Str.truthy value && negb (String.eqb value no_answer) then
    (fst st ++ [Str.strip value], snd st)
  else if Str.contains "more effective" (Str.lower col)
     && Str.truthy value && negb (String.eqb value no_answer) then
    (fst st, snd st ++ [Str.strip value])
  else st.

Definition extract_comments (responses : list row)
    : list string * list string :=
  fold_left (fun st resp => fold_left extract_comments_item resp st)
    responses ([], []).

(** ** Exceptions *)

Inductive exn : Type := StatisticsError | TypeError.

Inductive result (A : Type) : Type :=
| Ok (a : A)
| Raise (e : exn).
Arguments Ok {A} a.
Arguments Raise {A} e.

#[global] Instance result_ret : MRet result := fun A a => Ok a.
#[global] Instance result_bind : MBind result := fun A B f m =>
  match m with
  | Ok a => f a
  | Raise e => Raise e
  end.

(** ** Statistics reducer *)

(** A standard deviation is the square root of an exact non-negative
    fraction; it is carried by that fraction.  Square root is strictly
    increasing, so equality and order of two deviations are those of their
    radicands. *)
Record StdDev : Type := Sqrt { radicand : Q }.

(** [sum(values)] *)
Definition py_sum (values : list Z) : Z := fold_left Z.add values 0.

(** The fraction [num / den] in lowest terms, for [den > 0]. *)
Definition fraction (num den : Z) : Q := Qred (num # Z.to_pos den).

(** [statistics.mean]: the exact mean; raises on empty data. *)
Definition statistics_mean (data : list Z) : result Q :=
  let n := Z.of_nat (length data) in
  if n <? 1 then Raise StatisticsError
  else Ok (fraction (py_sum data) n).

(** [statistics.stdev]: from the exact sums [sx] and [sxx] of the data and of
    their squares, the sum of squared deviations is [(n*sxx - sx*sx) / n] and
    the mean square is that over [n - 1]; raises with fewer than two values. *)
Definition statistics_stdev (data : list Z) : result StdDev :=
  let n := Z.of_nat (length data) in
  if n <? 2 then Raise StatisticsError
  else
    let sx := py_sum data in
    let sxx := py_sum (List.map (fun x => x * x) data) in
    Ok (Sqrt (fraction (n * sxx - sx * sx) (n * (n - 1)))).

Definition calculate_stats (values : list Z)
    : result (option Q * option StdDev) :=
  match values with
  | [] => Ok (None, None)
  | _ :: _ =>
      mean ← statistics_mean values;
      stdev ← (if Z.of_nat (length values) >? 1
               then statistics_stdev values
               else Ok (Sqrt 0));
      Ok (Some mean, Some stdev)
  end.

(** ** Sorting *)

(** [list.sort] compares with [<] only and is stable; with [reverse=True]
    the list is reversed, sorted and reversed again, which keeps equal
    elements in their original order. *)
Fixpoint insort {A : Type} (lt : A -> A -> bool) (x : A) (l : list A) : list A :=
  match l with
  | [] => [x]
  | y :: l' => if lt x y then x :: l else y :: insort lt x l'
  end.

Definition stable_sort {A : Type} (lt : A -> A -> bool) (l : list A) : list A :=
  fold_left (fun acc x => insort lt x acc) l [].

Definition list_sort {A : Type} (lt : A -> A -> bool) (reverse : bool)
    (l : list A) : list A :=
  if reverse then rev (stable_sort lt (rev l)) else stable_sort lt l.

(** ** Ranked statistics *)

(** The tuple [(mean, std, label, n)]. *)
Definition ranked_stat : Type := Q * StdDev * string * Z.

Definition rs_mean (t : ranked_stat) : Q := fst (fst (fst t)).
Definition rs_std (t : ranked_stat) : StdDev := snd (fst (fst t)).
Definition rs_label (t : ranked_stat) : string := snd (fst t).
Definition rs_n (t : ranked_stat) : Z := snd t.

Definition lex (c1 c2 : comparison) : comparison :=
  match c1 with Eq => c2 | _ => c1 end.

(** Tuple comparison: the first component that differs decides. *)
Definition ranked_stat_compare (a b : ranked_stat) : comparison :=
  lex (rs_mean a ?= rs_mean b)%Q
   (lex (radicand (rs_std a) ?= radicand (rs_std b))%Q
     (lex (String.compare (rs_label a) (rs_label b))
          (rs_n a ?= rs_n b))).

Definition ranked_stat_ltb (a b : ranked_stat) : bool :=
  match ranked_stat_compare a b with Lt => true | _ => false end.

(** Body of [for label in QUESTION_LABELS.values()] building
    [sorted_ratings].  A [None] statistic can be neither ordered nor
    formatted. *)
Definition ranking_step (all_ratings : gmap string (list Z))
    (acc : result (list ranked_stat)) (label : string)
    : result (list ranked_stat) :=
  sorted_ratings ← acc;
  match all_ratings !! label with
  | Some ((_ :: _) as vs) =>
      stats ← calculate_stats vs;
      match stats with
      | (Some mean, Some std) =>
          Ok (sorted_ratings ++ [(mean, std, label, Z.of_nat (length vs))])
      | _ => Raise TypeError
      end
  | _ => Ok sorted_ratings
  end.

(** [sorted_ratings] after [sorted_ratings.sort(reverse=True)]. *)
Definition aggregate_ranking (all_ratings : gmap string (list Z))
    : result (list ranked_stat) :=
  unsorted ← fold_left (ranking_step all_ratings) question_labels (Ok []);
  Ok (list_sort ranked_stat_ltb true unsorted).

(** [l[:k]] and [l[-k:]] for [k > 0]. *)
Definition slice_first {A : Type} (k : nat) (l : list A) : list A := take k l.
Definition slice_last {A : Type} (k : nat) (l : list A) : list A :=
  drop (length l - k)%nat l.

Definition top3 (sorted_ratings : list ranked_stat) : list ranked_stat :=
  slice_first 3 sorted_ratings.
Definition bottom3 (sorted_ratings : list ranked_stat) : list ranked_stat :=
  slice_last 3 sorted_ratings.

(** ** Regular expressions, as [re.search] runs them

    A backtracking matcher in continuation-passing style for the fragment
    of the [re] syntax that [parse_course_info] uses: literals, counted and
    quantified character classes, alternation (first alternative first),
    sequence and numbered capturing groups.  The continuation receives the
    input left and the captures so far; a failed continuation makes the
    matcher try its next choice. *)

Module Regex.

Inductive regex : Type :=
| Lit (s : string)                       (* literal text *)
| Rep (n : nat) (p : ascii -> bool)      (* [p{n}] *)
| Plus (p : ascii -> bool)               (* [p+], greedy *)
| LazyStar (p : ascii -> bool)           (* [p*?] *)
| Alt (r1 r2 : regex)                    (* [r1|r2] *)
| Seq (r1 r2 : regex)
| Group (i : nat) (r : regex).           (* the [i]-th parenthesis *)

(** [\s], [\d] and [.] (any character but a line feed). *)
Definition space : ascii -> bool := Str.is_space.
Definition digit : ascii -> bool := Str.is_digit.
Definition dot (c : ascii) : bool := negb (Ascii.eqb c "010"%char).

Fixpoint match_lit (lit s : string) : option string :=
  match lit, s with
  | EmptyString, _ => Some s
  | String a lit', String b s' => if Ascii.eqb a b then match_lit lit' s' else None
  | String _ _, EmptyString => None
  end.

Fixpoint match_rep (n : nat) (p : ascii -> bool) (s : string) : option string :=
  match n, s with
  | O, _ => Some s
  | S n', String c s' => if p c then match_rep n' p s' else None
  | S _, EmptyString => None
  end.

(** Greedy repetition: take one more character first, give it back when
    what follows fails. *)
Fixpoint greedy_star {R : Type} (p : ascii -> bool) (s : string)
    (k : string -> option R) : option R :=
  match s with
  | String c s' =>
      if p c then
        match greedy_star p s' k with
        | Some r => Some r
        | None => k s
        end
      else k s
  | EmptyString => k s
  end.

Definition greedy_plus {R : Type} (p : ascii -> bool) (s : string)
    (k : string -> option R) : option R :=
  match s with
  | String c s' => if p c then greedy_star p s' k else None
  | EmptyString => None
  end.

(** Lazy repetition: try what follows first, take one more character when
    it fails. *)
Fixpoint lazy_star {R : Type} (p : ascii -> bool) (s : string)
    (k : string -> option R) : option R :=
  match k s with
  | Some r => Some r
  | None =>
      match s with
      | String c s' => if p c then lazy_star p s' k else None
      | EmptyString => None
      end
  end.

(** The text between the start [s] of a group and the input [rest] left
    when it closes. *)
Definition consumed (s rest : string) : string :=
  substring 0 (String.length s - String.length rest) s.

Definition captures : Type := gmap nat string.

Fixpoint rmatch (r : regex) (s : string) (caps : captures)
    (k : string -> captures -> option captures) : option captures :=
  match r with
  | Lit l =>
      match match_lit l s with
      | Some rest => k rest caps
      | None => None
      end
  | Rep n p =>
      match match_rep n p s with
      | Some rest => k rest caps
      | None => None
      end
  | Plus p => greedy_plus p s (fun rest => k rest caps)
  | LazyStar p => lazy_star p s (fun rest => k rest caps)
  | Alt r1 r2 =>
      match rmatch r1 s caps k with
      | Some m => Some m
      | None => rmatch r2 s caps k
      end
  | Seq r1 r2 => rmatch r1 s caps (fun rest caps' => rmatch r2 rest caps' k)
  | Group i r0 =>
      rmatch r0 s caps (fun rest caps' => k rest (<[i := consumed s rest]> caps'))
  end.

(** [re.match]: a match starting at the first character. *)
Definition match_here (r : regex) (s : string) : option captures :=
  rmatch r s ∅ (fun _ caps => Some caps).

(** [re.search]: the match at the leftmost position that has one. *)
Fixpoint search (r : regex) (s : string) : option captures :=
  match match_here r s with
  | Some m => Some m
  | None =>
      match s with
      | String _ s' => search r s'
      | EmptyString => None
      end
  end.

(** [m.group(i)] *)
Definition group (m : captures) (i : nat) : string := default "" (m !! i).

End Regex.

(** ** Filename metadata parser *)

(** [(Spring|Fall|Summer)\s+(\d{4}).*?(CMSI\s+\d+)\s+(\d+)] *)
Definition course_pattern : Regex.regex :=
  let open := Regex.Seq in
  open (Regex.Group 1 (Regex.Alt (Regex.Lit "Spring")
                      (Regex.Alt (Regex.Lit "Fall") (Regex.Lit "Summer"))))
 (open (Regex.Plus Regex.space)
 (open (Regex.Group 2 (Regex.Rep 4 Regex.digit))
 (open (Regex.LazyStar Regex.dot)
 (open (Regex.Group 3 (open (Regex.Lit "CMSI")
                      (open (Regex.Plus Regex.space) (Regex.Plus Regex.digit))))
 (open (Regex.Plus Regex.space)
       (Regex.Group 4 (Regex.Plus Regex.digit))))))).

Definition unknown_course : string * string * string :=
  ("Unknown", "Unknown", "00").

Definition parse_course_info (filename : string) : string * string * string :=
  match Regex.search course_pattern filename with
  | Some m =>
      let semester := Regex.group m 1 in
      let year := Regex.group m 2 in
      let course := Regex.group m 3 in
      let section := Regex.group m 4 in
      (semester +:+ " " +:+ year, course, section)
  | None => unknown_course
  end.

(** ** The per-file loop of [main] *)

(** An evaluation file: its name and the rows [load_eval_file] reads. *)
Definition eval_file : Type := string * list row.

Record course_summary : Type := CourseSummary {
  cs_semester : string;
  cs_course : string;
  cs_section : string;
  cs_n_responses : Z;
  cs_effectiveness : list Z;
  cs_ratings : gmap string (list Z);
  cs_beneficial : list string;
  cs_improvement : list string
}.

Record aggregate : Type := Aggregate {
  all_ratings : gmap string (list Z);
  all_effectiveness : list Z;
  all_beneficial : list string;
  all_improvement : list string;
  course_summaries : list course_summary
}.

Definition empty_aggregate : aggregate := Aggregate ∅ [] [] [] [].

(** Body of [for label in QUESTION_LABELS.values()] in the file loop. *)
Definition merge_label (ratings : gmap string (list Z))
    (acc : gmap string (list Z)) (label : string) : gmap string (list Z) :=
  match ratings !! label with
  | Some ((_ :: _) as vs) => dd_extend acc label vs
  | _ => acc
  end.

(** Body of [for filepath in sorted(eval_files)]. *)
Definition process_file (agg : aggregate) (f : eval_file) : aggregate :=
  let '(name, responses) := f in
  let '(semester, course, section) := parse_course_info name in
  let n_responses := Z.of_nat (length responses) in
  let '(ratings, effectiveness) := extract_ratings responses in
  let '(beneficial, improvement) := extract_comments responses in
  let all_eff :=
    match effectiveness with
    | [] => all_effectiveness agg
    | _ :: _ => all_effectiveness agg ++ effectiveness
    end in
  let all_rat := fold_left (merge_label ratings) question_labels (all_ratings agg) in
  Aggregate all_rat all_eff
    (all_beneficial agg ++ beneficial)
    (all_improvement agg ++ improvement)
    (course_summaries agg ++
       [CourseSummary semester course section n_responses effectiveness
          ratings beneficial improvement]).

(** File names order as [pathlib] orders paths of one directory. *)
Definition file_ltb (a b : eval_file) : bool := String.ltb (fst a) (fst b).

(** [sorted(eval_files)] *)
Definition sorted_files (eval_files : list eval_file) : list eval_file :=
  list_sort file_ltb false eval_files.

Definition process_files (files : list eval_file) : aggregate :=
  fold_left process_file files empty_aggregate.

(** The aggregation of [main]: every file, in sorted order. *)
Definition main_aggregate (eval_files : list eval_file) : aggregate :=
  process_files (sorted_files eval_files).

(** * Properties *)

(** ** Strings *)

Module StrFacts.
Import Str.

Lemma startswith_spec p s :
  startswith p s = true <-> exists post, s = p +:+ post.
Proof.
  revert s; induction p as [|a p IH]; intros s; simpl.
  - split; [intros _; exists s; reflexivity | reflexivity].
  - destruct s as [|b s].
    + split; [discriminate | intros [post H]; discriminate].
    + destruct (Ascii.eqb_spec a b) as [->|Hne].
      * rewrite IH. split; intros [post H]; exists post.
        -- simpl. now rewrite H.
        -- simpl in H. now inversion H.
      * split; [discriminate | intros [post H]; simpl in H; inversion H; congruence].
Qed.

Lemma contains_spec needle hay :
  contains needle hay = true <-> Substring needle hay.
Proof.
  unfold Substring. induction hay as [|c hay IH]; simpl.
  - rewrite orb_false_r, startswith_spec. split.
    + intros [post H]. exists EmptyString, post. exact H.
    + intros [pre [post H]]. destruct pre; simpl in H.
      * exists post; exact H.
      * discriminate.
  - rewrite orb_true_iff, startswith_spec, IH. split.
    + intros [[post H]|[pre [post H]]].
      * exists EmptyString, post. exact H.
      * exists (String c pre), post. simpl. now rewrite H.
    + intros [pre [post H]]. destruct pre as [|c' pre]; simpl in H.
      * left. exists post. exact H.
      * right. inversion H. exists pre, post. reflexivity.
Qed.

End StrFacts.

(** ** Loops that append *)

Section AppendLoops.
Context {A B : Type}.

(** A loop that appends [g x] for each [x] builds [flat_map g]. *)
Lemma fold_left_append (g : A -> list B) (l : list A) (init : list B) :
  fold_left (fun acc x => acc ++ g x) l init = init ++ flat_map g l.
Proof.
  revert init; induction l as [|x l IH]; intros init; simpl.
  - now rewrite app_nil_r.
  - rewrite IH. now rewrite app_assoc.
Qed.

Lemma fold_left_ext (f g : B -> A -> B) (l : list A) (init : B) :
  (forall acc x, f acc x = g acc x) ->
  fold_left f l init = fold_left g l init.
Proof.
  intros Hfg. revert init; induction l as [|x l IH]; intros init; simpl.
  - reflexivity.
  - rewrite Hfg. apply IH.
Qed.

End AppendLoops.

Lemma flat_map_filter {A : Type} (f : A -> bool) (l : list A) :
  flat_map (fun x => if f x then [x] else []) l = List.filter f l.
Proof.
  induction l as [|x l IH]; simpl; [reflexivity|].
  rewrite IH. now destruct (f x).
Qed.

(** Two hits of a test in a duplicate-free list are two different elements. *)
Lemma two_hits {A : Type} (f : A -> bool) (l : list A) :
  List.NoDup l ->
  (2 <= length (List.filter f l))%nat <->
  exists x y, x <> y /\ In x l /\ In y l /\ f x = true /\ f y = true.
Proof.
  intros Hnd. split.
  - intros Hlen.
    assert (Hndf : List.NoDup (List.filter f l)) by now apply List.NoDup_filter.
    destruct (List.filter f l) as [|x [|y r]] eqn:E; simpl in Hlen; try lia.
    assert (Hx : In x (List.filter f l)) by (rewrite E; simpl; auto).
    assert (Hy : In y (List.filter f l)) by (rewrite E; simpl; auto).
    apply filter_In in Hx, Hy. destruct Hx as [Hx Hfx], Hy as [Hy Hfy].
    exists x, y. repeat split; auto.
    intros ->. apply List.NoDup_cons_iff in Hndf. apply (proj1 Hndf). simpl; auto.
  - intros (x & y & Hne & Hx & Hy & Hfx & Hfy).
    assert (Hx' : In x (List.filter f l)) by (apply filter_In; auto).
    assert (Hy' : In y (List.filter f l)) by (apply filter_In; auto).
    destruct (List.filter f l) as [|a [|b r]]; simpl in *; [tauto | | lia].
    destruct Hx' as [<-|[]], Hy' as [<-|[]]. congruence.
Qed.

(** ** Feedback filter *)

Lemma py_sum_ones {A : Type} (l : list A) (a : Z) :
  fold_left Z.add (List.map (fun _ => 1) l) a = a + Z.of_nat (length l).
Proof.
  revert a; induction l as [|x l IH]; intros a; simpl length; simpl fold_left.
  - lia.
  - rewrite IH. lia.
Qed.

(** The count is the number of keywords found: one per keyword, however
    often it occurs. *)
Lemma positive_count_length lower_comment :
  positive_count lower_comment =
  Z.of_nat (length (List.filter (fun kw => Str.contains kw lower_comment)
                      positive_keywords)).
Proof. unfold positive_count. now rewrite py_sum_ones. Qed.

Lemma positive_keywords_NoDup : List.NoDup positive_keywords.
Proof. apply NoDup_ListNoDup, (bool_decide_unpack _). vm_compute. reflexivity. Qed.

Lemma positive_keywords_lower :
  forall kw, In kw positive_keywords -> Str.lower kw = kw.
Proof.
  intros kw Hin. unfold positive_keywords in Hin. simpl in Hin.
  repeat (destruct Hin as [<-|Hin]; [reflexivity|]). destruct Hin.
Qed.

(** [kw] occurs in [comment] whatever the case of the letters. *)
Definition occurs_ci (kw comment : string) : Prop :=
  Str.Substring (Str.lower kw) (Str.lower comment).

(** The condition the specification gives for keeping a comment: long
    enough, and two different keywords of the vocabulary occur in it. *)
Definition retained_by_spec (min_length : Z) (comment : string) : Prop :=
  min_length <= Str.len comment /\
  exists kw1 kw2, kw1 <> kw2 /\
    In kw1 positive_keywords /\ In kw2 positive_keywords /\
    occurs_ci kw1 comment /\ occurs_ci kw2 comment.

(** The test of the loop body. *)
Definition keeps (min_length : Z) (comment : string) : bool :=
  (Str.len comment >=? min_length) && (positive_count (Str.lower comment) >=? 2).

Lemma filter_good_feedback_filter comments min_length :
  filter_good_feedback comments min_length =
  List.filter (keeps min_length) comments.
Proof.
  unfold filter_good_feedback.
  rewrite (fold_left_ext _
             (fun acc c => acc ++ (if keeps min_length c then [c] else []))).
  - rewrite fold_left_append. simpl. apply flat_map_filter.
  - intros acc c. unfold filter_good_feedback_step, keeps.
    destruct (Str.len c >=? min_length); simpl.
    + destruct (positive_count (Str.lower c) >=? 2); [reflexivity|].
      now rewrite app_nil_r.
    + now rewrite app_nil_r.
Qed.

Lemma keeps_spec min_length comment :
  keeps min_length comment = true <-> retained_by_spec min_length comment.
Proof.
  unfold keeps, retained_by_spec.
  rewrite andb_true_iff, !Z.geb_le, positive_count_length.
  assert (Hocc : forall kw, In kw positive_keywords ->
            (Str.contains kw (Str.lower comment) = true <-> occurs_ci kw comment)).
  { intros kw Hin. unfold occurs_ci.
    rewrite (positive_keywords_lower kw Hin). apply StrFacts.contains_spec. }
  split; intros [Hlen Hcnt]; (split; [exact Hlen|]).
  - assert (H2 : (2 <= length (List.filter
                 (fun kw => Str.contains kw (Str.lower comment)) positive_keywords))%nat) by lia.
    apply (two_hits _ _ positive_keywords_NoDup) in H2.
    destruct H2 as (x & y & Hne & Hx & Hy & Hfx & Hfy).
    exists x, y. repeat split; auto; now apply Hocc.
  - destruct Hcnt as (x & y & Hne & Hx & Hy & Hfx & Hfy).
    assert (H2 : (2 <= length (List.filter
                 (fun kw => Str.contains kw (Str.lower comment)) positive_keywords))%nat).
    { apply (two_hits _ _ positive_keywords_NoDup).
      exists x, y. repeat split; auto; now apply Hocc. }
    lia.
Qed.

(** C1. The feedback filter keeps exactly the comments, in their input
    order, whose length is at least [min_length] and in which at least two
    different keywords of the vocabulary occur as case-insensitive
    substrings; the kept comments are a subsequence of the input; with the
    default threshold of 50 no comment of 49 characters is kept; and a
    keyword counts once however often it occurs. *)
Theorem filter_good_feedback_spec (comments : list string) (min_length : Z) :
  (exists keep : string -> bool,
     (forall c, keep c = true <-> retained_by_spec min_length c) /\
     filter_good_feedback comments min_length = List.filter keep comments) /\
  sublist (filter_good_feedback comments min_length) comments /\
  (forall c, In c (filter_good_feedback comments default_min_length) ->
             Str.len c <> 49) /\
  (forall c, positive_count c <= Z.of_nat (length positive_keywords)).
Proof.
  repeat split.
  - exists (keeps min_length). split.
    + intros c. apply keeps_spec.
    + apply filter_good_feedback_filter.
  - rewrite filter_good_feedback_filter.
    induction comments as [|c l IH]; simpl; [constructor|].
    destruct (keeps min_length c); now constructor.
  - intros c Hin. rewrite filter_good_feedback_filter in Hin.
    apply filter_In in Hin. destruct Hin as [_ Hk].
    unfold keeps, default_min_length in Hk.
    apply andb_true_iff in Hk. destruct Hk as [Hk _].
    apply Z.geb_le in Hk. lia.
  - intros c. rewrite positive_count_length.
    apply inj_le. apply List.filter_length_le.
Qed.

(** A comment of 58 characters with [great] and [helpful] is kept; one of
    the same length with [great] alone, even repeated, is dropped; so is a
    comment of 49 characters with three keywords. *)
Example filter_good_feedback_scenarios :
  let comments :=
    [ "The labs were great and the office hours were helpful too.";
      "The labs were great, great, great, and the rest was okay.!";
      "great, helpful and clear lectures every week, thx" ] in
  List.map Str.len comments = [58; 58; 49] /\
  List.map (fun c => positive_count (Str.lower c)) comments = [2; 1; 3] /\
  filter_good_feedback comments default_min_length
  = [ "The labs were great and the office hours were helpful too." ].
Proof. vm_compute. repeat split; reflexivity. Qed.

(** ** Loops observed through a sequence *)

(** When each step extends an observed sequence by [g x], the loop extends
    it by [flat_map g]. *)
Lemma fold_left_obs {S A B : Type} (obs : S -> list B) (step : S -> A -> S)
    (g : A -> list B) :
  (forall s x, obs (step s x) = obs s ++ g x) ->
  forall l s, obs (fold_left step l s) = obs s ++ flat_map g l.
Proof.
  intros Hstep l. induction l as [|x l IH]; intros s; simpl.
  - now rewrite app_nil_r.
  - rewrite IH, Hstep. now rewrite app_assoc.
Qed.

(** ** Comment extractor *)

(** The raw value is an answer: non-empty and not the sentinel. *)
Definition answered (value : string) : bool :=
  Str.truthy value && negb (String.eqb value no_answer).

Definition benefit_of (item : string * string) : list string :=
  let '(col, value) := item in
  if Str.contains "most beneficial" (Str.lower col) && answered value
  then [Str.strip value] else [].

Definition improvement_of (item : string * string) : list string :=
  let '(col, value) := item in
  if negb (Str.contains "most beneficial" (Str.lower col))
     && Str.contains "more effective" (Str.lower col) && answered value
  then [Str.strip value] else [].

(** The rule as the specification words it: the test is on the trimmed
    value, and the two markers are treated alike. *)
Definition spec_collects (marker col value : string) : bool :=
  Str.contains marker (Str.lower col)
  && Str.truthy (Str.strip value)
  && negb (String.eqb (Str.strip value) no_answer).

Definition spec_extract_comments (responses : list row)
    : list string * list string :=
  (flat_map (flat_map (fun '(col, value) =>
     if spec_collects "most beneficial" col value then [Str.strip value] else []))
     responses,
   flat_map (flat_map (fun '(col, value) =>
     if spec_collects "more effective" col value then [Str.strip value] else []))
     responses).

Lemma extract_comments_item_obs st item :
  extract_comments_item st item =
  (fst st ++ benefit_of item, snd st ++ improvement_of item).
Proof.
  destruct st as [b i], item as [col value].
  unfold extract_comments_item, benefit_of, improvement_of, answered. simpl.
  destruct (Str.contains "most beneficial" (Str.lower col));
    destruct (Str.contains "more effective" (Str.lower col));
    destruct (Str.truthy value); destruct (String.eqb value no_answer);
    simpl; rewrite ?app_nil_r; reflexivity.
Qed.

(** C2. A value is to be collected only when, trimmed, it is non-empty and
    is not the sentinel ["D/A"].  The code tests the value as read and trims
    it afterwards: on the record below it collects the value of blanks, as
    the empty string, and the padded sentinel, as the sentinel, where the
    rule collects nothing. *)
Lemma extract_comments_trimmed_test_fails :
  let responses :=
    [ [ ("What was most beneficial?", "   ");
        ("How could it be more effective?", " D/A ") ] ] in
  extract_comments responses = ([""], ["D/A"]) /\
  spec_extract_comments responses = ([], []) /\
  extract_comments responses <> spec_extract_comments responses.
Proof. vm_compute. repeat split; discriminate. Qed.

(** A column that carries both markers feeds the benefit sequence only. *)
Example extract_comments_both_markers :
  extract_comments [ [ ("most beneficial / more effective", "pair work") ] ]
  = (["pair work"], []).
Proof. vm_compute. reflexivity. Qed.

(** ** Response extractor *)

Lemma series_dd_append d k v k' :
  series (dd_append d k v) k' =
  series d k' ++ (if String.eqb k k' then [v] else []).
Proof.
  unfold series, dd_append. destruct (String.eqb_spec k k') as [->|Hne].
  - now rewrite lookup_insert_eq.
  - rewrite lookup_insert_ne by exact Hne. now rewrite app_nil_r.
Qed.

Lemma series_dd_extend d k vs k' :
  series (dd_extend d k vs) k' =
  series d k' ++ (if String.eqb k k' then vs else []).
Proof.
  unfold series, dd_extend. destruct (String.eqb_spec k k') as [->|Hne].
  - now rewrite lookup_insert_eq.
  - rewrite lookup_insert_ne by exact Hne. now rewrite app_nil_r.
Qed.

(** What one cell contributes on the Likert scale for the question text
    [q_text], and on the effectiveness scale. *)
Definition likert_score (q_text : string) (item : string * string) : list Z :=
  let '(col, value) := item in
  if Str.contains q_text col && negb (Str.contains comments_marker col)
  then match LIKERT_MAP !! value with Some n => [n] | None => [] end
  else [].

Definition effectiveness_score (item : string * string) : list Z :=
  let '(col, value) := item in
  if Str.contains "overall effectiveness" (Str.lower col)
     && negb (Str.contains comments_marker col)
  then match EFFECTIVENESS_MAP !! value with Some n => [n] | None => [] end
  else [].

(** What one cell contributes to the series of [label], through every
    question bound to that label. *)
Definition label_score (label : string) (item : string * string) : list Z :=
  flat_map (fun q => if String.eqb (snd q) label then likert_score (fst q) item else [])
    QUESTION_LABELS.

Lemma likert_step_obs col value label ratings q :
  series (likert_step col value ratings q) label =
  series ratings label ++
  (if String.eqb (snd q) label then likert_score (fst q) (col, value) else []).
Proof.
  destruct q as [q_text l]. unfold likert_step, likert_score. simpl.
  destruct (Str.contains q_text col && negb (Str.contains comments_marker col)).
  - destruct (LIKERT_MAP !! value) as [n|].
    + apply series_dd_append.
    + destruct (String.eqb l label); now rewrite app_nil_r.
  - destruct (String.eqb l label); now rewrite app_nil_r.
Qed.

Lemma extract_ratings_item_obs label st item :
  series (fst (extract_ratings_item st item)) label =
  series (fst st) label ++ label_score label item.
Proof.
  destruct item as [col value]. unfold extract_ratings_item, label_score. cbn [fst].
  apply (fold_left_obs (fun m => series m label)).
  intros s q. apply likert_step_obs.
Qed.

Lemma extract_ratings_item_eff st item :
  snd (extract_ratings_item st item) = snd st ++ effectiveness_score item.
Proof.
  destruct item as [col value]. unfold extract_ratings_item. cbn [snd].
  unfold effectiveness_step, effectiveness_score.
  destruct (_ && _); [|now rewrite app_nil_r].
  destruct (EFFECTIVENESS_MAP !! value); [reflexivity|now rewrite app_nil_r].
Qed.

(** The series of any label, and the effectiveness series, as
    comprehensions over the cells. *)
Lemma extract_ratings_series responses label :
  series (fst (extract_ratings responses)) label =
  flat_map (flat_map (label_score label)) responses.
Proof.
  unfold extract_ratings.
  rewrite (fold_left_obs (fun st => series (fst st) label) _
             (flat_map (label_score label))); [reflexivity|].
  intros s resp. apply (fold_left_obs (fun st => series (fst st) label)).
  intros s' item. apply extract_ratings_item_obs.
Qed.

Lemma extract_ratings_effectiveness responses :
  snd (extract_ratings responses) =
  flat_map (flat_map effectiveness_score) responses.
Proof.
  unfold extract_ratings.
  rewrite (fold_left_obs snd _ (flat_map effectiveness_score)); [reflexivity|].
  intros s resp. apply (fold_left_obs snd).
  intros s' item. apply extract_ratings_item_eff.
Qed.

Lemma question_labels_NoDup : List.NoDup question_labels.
Proof. apply NoDup_ListNoDup, (bool_decide_unpack _). vm_compute. reflexivity. Qed.

(** Among items of distinct keys, selecting by key selects one item. *)
Lemma flat_map_select {A B : Type} (key : A -> string) (g : A -> list B)
    (l : list A) (a : A) :
  List.NoDup (List.map key l) -> In a l ->
  flat_map (fun x => if String.eqb (key x) (key a) then g x else []) l = g a.
Proof.
  induction l as [|y l IH]; intros Hnd Hin; [destruct Hin|].
  simpl in Hnd. apply List.NoDup_cons_iff in Hnd. destruct Hnd as [Hnotin Hnd].
  simpl. destruct Hin as [->|Hin].
  - rewrite String.eqb_refl.
    assert (Hrest : flat_map (fun x => if String.eqb (key x) (key a)
                      then g x else []) l = []).
    { clear IH Hnd. induction l as [|z l IH2]; [reflexivity|].
      simpl. destruct (String.eqb_spec (key z) (key a)) as [Heq|Hne].
      - exfalso. apply Hnotin. simpl. auto.
      - apply IH2. intros Hc. apply Hnotin. simpl. auto. }
    rewrite Hrest. apply app_nil_r.
  - destruct (String.eqb_spec (key y) (key a)) as [Heq|Hne].
    + exfalso. apply Hnotin. rewrite Heq. now apply in_map.
    + simpl. now apply IH.
Qed.

(** A label is bound to one question text only. *)
Lemma label_score_bound (q_text label : string) (item : string * string) :
  In (q_text, label) QUESTION_LABELS ->
  label_score label item = likert_score q_text item.
Proof.
  intros Hin. unfold label_score.
  apply (flat_map_select snd (fun q => likert_score (fst q) item)
           QUESTION_LABELS (q_text, label)).
  - exact question_labels_NoDup.
  - exact Hin.
Qed.

(** C3. For a question text [q_text] bound to [label], the series of
    [label] holds, in row order then column order, the Likert image of every
    cell whose column name contains [q_text], does not contain
    ["_Comments"], and whose value is a key of the Likert mapping, and
    nothing else; independently the effectiveness series holds the
    effectiveness image of every cell whose column name contains
    ["overall effectiveness"] in any letter case, does not contain
    ["_Comments"], and whose value is a key of the effectiveness mapping. *)
Theorem extract_ratings_spec (responses : list row) (q_text label : string) :
  In (q_text, label) QUESTION_LABELS ->
  series (fst (extract_ratings responses)) label =
    flat_map (flat_map (likert_score q_text)) responses /\
  snd (extract_ratings responses) =
    flat_map (flat_map effectiveness_score) responses.
Proof.
  intros Hin. split.
  - rewrite extract_ratings_series.
    apply flat_map_ext. intros resp. apply flat_map_ext. intros item.
    now apply label_score_bound.
  - apply extract_ratings_effectiveness.
Qed.

Definition sample_rows : list row :=
  [ [ ("The course challenged me to do my best work", "Agree");
      ("The course challenged me to do my best work_Comments", "Agree");
      ("Overall Effectiveness of the instructor", "Excellent") ];
    [ ("The course challenged me to do my best work", "N/A");
      ("Overall Effectiveness of the instructor", "Good") ];
    [ ("The course challenged me to do my best work", "Strongly Agree");
      ("Overall Effectiveness of the instructor", "Excellent") ] ].

Lemma extract_ratings_spec_witness :
  In ("The course challenged me to do my best work", "Challenged") QUESTION_LABELS /\
  (series (fst (extract_ratings sample_rows)) "Challenged" =
     flat_map (flat_map (likert_score "The course challenged me to do my best work"))
       sample_rows /\
   snd (extract_ratings sample_rows) =
     flat_map (flat_map effectiveness_score) sample_rows).
Proof.
  split.
  - vm_compute. tauto.
  - apply (extract_ratings_spec sample_rows
             "The course challenged me to do my best work" "Challenged").
    vm_compute. tauto.
Defined.

(** Three respondents answering Excellent, Good, Excellent give the
    effectiveness series 5, 3, 5; the free-text sibling column and the
    unmapped answer are left out of the question series. *)
Example extract_ratings_sample :
  series (fst (extract_ratings sample_rows)) "Challenged" = [4; 5] /\
  snd (extract_ratings sample_rows) = [5; 3; 5].
Proof. vm_compute. split; reflexivity. Qed.

(** ** Provenance of the scores *)

Lemma LIKERT_MAP_range value v : LIKERT_MAP !! value = Some v -> 1 <= v <= 5.
Proof.
  unfold LIKERT_MAP. intros H. apply elem_of_list_to_map_2 in H.
  repeat (apply elem_of_cons in H as [H|H]; [inversion H; lia|]).
  now apply elem_of_nil in H.
Qed.

Lemma EFFECTIVENESS_MAP_range value v :
  EFFECTIVENESS_MAP !! value = Some v -> 1 <= v <= 5.
Proof.
  unfold EFFECTIVENESS_MAP. intros H. apply elem_of_list_to_map_2 in H.
  repeat (apply elem_of_cons in H as [H|H]; [inversion H; lia|]).
  now apply elem_of_nil in H.
Qed.

Lemma likert_score_In q_text col value v :
  In v (likert_score q_text (col, value)) -> LIKERT_MAP !! value = Some v.
Proof.
  unfold likert_score. destruct (_ && _); [|intros []].
  destruct (LIKERT_MAP !! value) as [n|]; [|intros []].
  intros [->|[]]. reflexivity.
Qed.

Lemma effectiveness_score_In col value v :
  In v (effectiveness_score (col, value)) -> EFFECTIVENESS_MAP !! value = Some v.
Proof.
  unfold effectiveness_score. destruct (_ && _); [|intros []].
  destruct (EFFECTIVENESS_MAP !! value) as [n|]; [|intros []].
  intros [->|[]]. reflexivity.
Qed.

Lemma fold_left_fixed {S A : Type} (step : S -> A -> S) (l : list A) (s : S) :
  (forall x, In x l -> forall s', step s' x = s') -> fold_left step l s = s.
Proof.
  induction l as [|x l IH]; intros H; simpl; [reflexivity|].
  rewrite (H x) by (simpl; auto). apply IH. intros y Hy. apply H. simpl; auto.
Qed.

(** A row with no recognised answer leaves both series as they are. *)
Lemma extract_ratings_unmapped_row (responses : list row) (r : row) :
  (forall col value, In (col, value) r ->
     LIKERT_MAP !! value = None /\ EFFECTIVENESS_MAP !! value = None) ->
  extract_ratings (responses ++ [r]) = extract_ratings responses.
Proof.
  intros Hr. unfold extract_ratings. rewrite fold_left_app. simpl.
  apply fold_left_fixed. intros [col value] Hin [m e].
  destruct (Hr col value Hin) as [HL HE].
  unfold extract_ratings_item. cbn [fst snd]. f_equal.
  - apply fold_left_fixed. intros [q l] _ m'. unfold likert_step.
    rewrite HL. now destruct (_ && _).
  - unfold effectiveness_step. rewrite HE. now destruct (_ && _).
Qed.

(** C7. Every integer of a question series is the Likert image of the
    answer of some cell of the records, every integer of the effectiveness
    series the effectiveness image of one, so all lie in 1..5 and neither
    series holds a value mapped on the other scale; the respondent count of
    a file is the number of its records, and a record none of whose answers
    is recognised adds nothing to the series and one to that number. *)
Theorem score_series_provenance (responses : list row) :
  (forall label v, In v (series (fst (extract_ratings responses)) label) ->
     exists resp col value, In resp responses /\ In (col, value) resp /\
       LIKERT_MAP !! value = Some v /\ 1 <= v <= 5) /\
  (forall v, In v (snd (extract_ratings responses)) ->
     exists resp col value, In resp responses /\ In (col, value) resp /\
       EFFECTIVENESS_MAP !! value = Some v /\ 1 <= v <= 5) /\
  (forall agg name, exists cs,
     course_summaries (process_file agg (name, responses)) =
       course_summaries agg ++ [cs] /\
     cs_n_responses cs = Z.of_nat (length responses)) /\
  (forall r,
     (forall col value, In (col, value) r ->
        LIKERT_MAP !! value = None /\ EFFECTIVENESS_MAP !! value = None) ->
     extract_ratings (responses ++ [r]) = extract_ratings responses /\
     Z.of_nat (length (responses ++ [r])) = Z.of_nat (length responses) + 1).
Proof.
  repeat apply conj.
  - intros label v Hv. rewrite extract_ratings_series in Hv.
    apply in_flat_map in Hv. destruct Hv as (resp & Hresp & Hv).
    apply in_flat_map in Hv. destruct Hv as ([col value] & Hitem & Hv).
    unfold label_score in Hv.
    apply in_flat_map in Hv. destruct Hv as ([q l] & _ & Hv). simpl in Hv.
    destruct (String.eqb l label); [|destruct Hv].
    apply likert_score_In in Hv.
    exists resp, col, value. repeat split; auto;
      now apply (LIKERT_MAP_range value).
  - intros v Hv. rewrite extract_ratings_effectiveness in Hv.
    apply in_flat_map in Hv. destruct Hv as (resp & Hresp & Hv).
    apply in_flat_map in Hv. destruct Hv as ([col value] & Hitem & Hv).
    apply effectiveness_score_In in Hv.
    exists resp, col, value. repeat split; auto;
      now apply (EFFECTIVENESS_MAP_range value).
  - intros agg name. unfold process_file.
    destruct (parse_course_info name) as [[semester course] section].
    destruct (extract_ratings responses) as [ratings effectiveness].
    destruct (extract_comments responses) as [beneficial improvement].
    eexists. split; [reflexivity|]. reflexivity.
  - intros r Hr. split.
    + now apply extract_ratings_unmapped_row.
    + rewrite length_app. simpl. lia.
Qed.

(** ** Statistics reducer *)

Lemma py_sum_acc (l : list Z) (a : Z) :
  fold_left Z.add l a = a + py_sum l.
Proof.
  unfold py_sum. revert a. induction l as [|x l IH]; intros a; simpl.
  - lia.
  - rewrite (IH (a + x)), (IH (0 + x)). lia.
Qed.

Lemma py_sum_cons (x : Z) (l : list Z) : py_sum (x :: l) = x + py_sum l.
Proof. unfold py_sum at 1. simpl. apply py_sum_acc. Qed.

Lemma py_sum_Permutation (l l' : list Z) :
  Permutation l l' -> py_sum l = py_sum l'.
Proof.
  induction 1 as [|x l l' _ IH|x y l|l l' l'' _ IH1 _ IH2].
  - reflexivity.
  - rewrite !py_sum_cons. lia.
  - rewrite !py_sum_cons. lia.
  - congruence.
Qed.

(** The mean and the deviation of non-empty data, without the guards. *)
Definition mean_of (values : list Z) : Q :=
  fraction (py_sum values) (Z.of_nat (length values)).

Definition stdev_of (values : list Z) : StdDev :=
  let n := Z.of_nat (length values) in
  if n >? 1 then
    Sqrt (fraction (n * py_sum (List.map (fun x => x * x) values)
                    - py_sum values * py_sum values) (n * (n - 1)))
  else Sqrt 0.

(** On non-empty data neither library call raises. *)
Lemma calculate_stats_cons (x : Z) (xs : list Z) :
  calculate_stats (x :: xs) =
  Ok (Some (mean_of (x :: xs)), Some (stdev_of (x :: xs))).
Proof.
  unfold calculate_stats, statistics_mean, statistics_stdev, mean_of, stdev_of.
  set (values := x :: xs).
  assert (Hn : 1 <= Z.of_nat (length values)) by (subst values; simpl length; lia).
  destruct (Z.ltb_spec (Z.of_nat (length values)) 1) as [Hlt|_]; [lia|].
  cbn [mbind result_bind].
  destruct (Z.of_nat (length values) >? 1) eqn:Hgt.
  - destruct (Z.ltb_spec (Z.of_nat (length values)) 2) as [Hlt|_].
    + apply Z.gtb_lt in Hgt. lia.
    + reflexivity.
  - reflexivity.
Qed.

Lemma fraction_Qdiv (num den : Z) :
  0 < den -> (fraction num den == inject_Z num / inject_Z den)%Q.
Proof.
  intros Hden. unfold fraction. rewrite Qred_correct, Qmake_Qdiv.
  now rewrite Z2Pos.id.
Qed.

Lemma fraction_integer (k den : Z) :
  0 < den -> fraction (den * k) den = inject_Z k.
Proof.
  intros Hden. unfold fraction. rewrite <- (inject_Z_Qred k).
  apply Qred_complete. unfold Qeq, inject_Z. simpl.
  rewrite Z2Pos.id by exact Hden. lia.
Qed.

Lemma fraction_zero (den : Z) : fraction 0 den = 0%Q.
Proof.
  unfold fraction. change 0%Q with (Qred 0). apply Qred_complete.
  unfold Qeq. simpl. reflexivity.
Qed.

(** The sum of the squared deviations from [m], as the textbook has it. *)
Definition sum_sq_dev (m : Q) (values : list Z) : Q :=
  fold_right (fun (x : Z) (acc : Q) => ((inject_Z x - m) * (inject_Z x - m) + acc)%Q)
    0%Q values.

Lemma sum_sq_dev_expand (m : Q) (values : list Z) :
  (sum_sq_dev m values ==
   inject_Z (py_sum (List.map (fun x : Z => (x * x)%Z) values))
   - (2 # 1) * m * inject_Z (py_sum values)
   + inject_Z (Z.of_nat (length values)) * m * m)%Q.
Proof.
  induction values as [|x l IH].
  - simpl. unfold py_sum. simpl. ring.
  - cbn [sum_sq_dev fold_right List.map length].
    fold (sum_sq_dev m l). rewrite IH, !py_sum_cons.
    rewrite Nat2Z.inj_succ, <- Z.add_1_r.
    rewrite !inject_Z_plus, inject_Z_mult. ring.
Qed.

Lemma py_sum_repeat (k : Z) (n : nat) : py_sum (repeat k n) = Z.of_nat n * k.
Proof.
  induction n as [|n IH].
  - reflexivity.
  - cbn [repeat]. rewrite py_sum_cons, IH. lia.
Qed.

Lemma map_repeat {A B : Type} (f : A -> B) (a : A) (n : nat) :
  List.map f (repeat a n) = repeat (f a) n.
Proof. induction n; simpl; congruence. Qed.

Lemma mean_of_Qdiv (values : list Z) :
  values <> [] ->
  (mean_of values ==
   inject_Z (py_sum values) / inject_Z (Z.of_nat (length values)))%Q.
Proof.
  intros Hne. unfold mean_of. apply fraction_Qdiv.
  destruct values; [contradiction|simpl length; lia].
Qed.

(** The deviation computed from the two sums is the textbook one: the
    squared deviations from the mean, summed, over [n - 1]. *)
Lemma stdev_of_sum_sq_dev (values : list Z) :
  (2 <= length values)%nat ->
  (radicand (stdev_of values) ==
   sum_sq_dev (mean_of values) values
   / inject_Z (Z.of_nat (length values) - 1))%Q.
Proof.
  intros Hlen.
  assert (Hmean := mean_of_Qdiv values).
  rewrite sum_sq_dev_expand, Hmean by (destruct values; [simpl in Hlen; lia|discriminate]).
  clear Hmean. unfold stdev_of.
  set (n := Z.of_nat (length values)).
  assert (Hn : 2 <= n) by (subst n; lia).
  destruct (n >? 1) eqn:Hgt;
    [|rewrite Z.gtb_ltb in Hgt; apply Z.ltb_ge in Hgt; lia].
  cbn [radicand]. rewrite fraction_Qdiv by nia.
  set (sx := py_sum values). set (sxx := py_sum (List.map _ values)).
  assert (Hn0 : ~ (inject_Z n == 0)%Q).
  { intros H. unfold Qeq in H. simpl in H. lia. }
  assert (Hn1 : ~ (inject_Z n - 1 == 0)%Q).
  { change 1%Q with (inject_Z 1). unfold Qminus.
    rewrite <- inject_Z_opp, <- inject_Z_plus.
    intros H. unfold Qeq in H. simpl in H. lia. }
  unfold Z.sub.
  repeat (rewrite ?inject_Z_mult, ?inject_Z_plus, ?inject_Z_opp).
  change (inject_Z 1) with 1%Q.
  clearbody n sx sxx. revert Hn0 Hn1.
  generalize (inject_Z n) (inject_Z sx) (inject_Z sxx).
  intros qn qx qxx Hn0 Hn1. field.
  split; [exact Hn0 | intros H; apply Hn1; rewrite <- H; ring].
Qed.

Lemma sum_sq_dev_nonneg (m : Q) (values : list Z) :
  (0 <= sum_sq_dev m values)%Q.
Proof.
  induction values as [|x l IH]; simpl.
  - apply Qle_refl.
  - fold (sum_sq_dev m l).
    apply (Qplus_le_compat 0 _ 0 _); [|exact IH].
    set (d := (inject_Z x - m)%Q).
    destruct (Qlt_le_dec d 0) as [Hneg|Hpos].
    + assert (Heq : (d * d == (- d) * (- d))%Q) by ring. rewrite Heq.
      apply Qmult_le_0_compat; apply (Qopp_le_compat d 0); now apply Qlt_le_weak.
    + now apply Qmult_le_0_compat.
Qed.

Lemma stdev_of_nonneg (values : list Z) : (0 <= radicand (stdev_of values))%Q.
Proof.
  destruct (le_lt_dec 2 (length values)) as [Hlen|Hlen].
  - rewrite (stdev_of_sum_sq_dev values Hlen).
    apply Qle_shift_div_l.
    + change 0%Q with (inject_Z 0). rewrite <- Zlt_Qlt. lia.
    + rewrite Qmult_0_l. apply sum_sq_dev_nonneg.
  - unfold stdev_of.
    destruct (Z.of_nat (length values) >? 1) eqn:Hgt.
    + apply Z.gtb_lt in Hgt. lia.
    + apply Qle_refl.
Qed.

(** The real number a [StdDev] stands for. *)
Definition stdev_value (s : StdDev) : R := sqrt (Q2R (radicand s)).

Lemma stdev_value_zero : stdev_value (Sqrt 0) = 0%R.
Proof. unfold stdev_value. cbn [radicand]. rewrite RMicromega.Q2R_0. apply sqrt_0. Qed.

(** Order and equality of deviations are those of their radicands. *)
Lemma stdev_value_le (a b : StdDev) :
  (radicand a <= radicand b)%Q -> (stdev_value a <= stdev_value b)%R.
Proof. intros H. apply sqrt_le_1_alt. now apply Qle_Rle. Qed.

Lemma stdev_value_lt (a b : StdDev) :
  (0 <= radicand a)%Q -> (radicand a < radicand b)%Q ->
  (stdev_value a < stdev_value b)%R.
Proof.
  intros H0 H. apply sqrt_lt_1_alt. split.
  - rewrite <- RMicromega.Q2R_0. now apply Qle_Rle.
  - now apply Qlt_Rlt.
Qed.

(** C4. The reducer never raises; it returns the pair of [None] for the
    empty sequence; for one element the deviation is exactly zero (and the
    mean that element); for two or more elements the mean is the sum over
    [n] and the deviation is the square root of the sum of squared
    deviations from the mean over [n - 1]; for a constant sequence the mean
    is the constant and the deviation is zero. *)
Theorem calculate_stats_spec :
  calculate_stats [] = Ok (None, None) /\
  (forall x, calculate_stats [x] = Ok (Some (inject_Z x), Some (Sqrt 0))) /\
  stdev_value (Sqrt 0) = 0%R /\
  (forall values, (2 <= length values)%nat ->
     exists mean sd,
       calculate_stats values = Ok (Some mean, Some sd) /\
       (mean == inject_Z (py_sum values) / inject_Z (Z.of_nat (length values)))%Q /\
       stdev_value sd =
         sqrt (Q2R (sum_sq_dev mean values
                    / inject_Z (Z.of_nat (length values) - 1)))) /\
  (forall k n, (1 <= n)%nat ->
     calculate_stats (repeat k n) = Ok (Some (inject_Z k), Some (Sqrt 0))).
Proof.
  repeat apply conj.
  - reflexivity.
  - intros x. rewrite calculate_stats_cons. unfold mean_of, stdev_of.
    simpl length. change (Z.of_nat 1) with 1.
    replace (py_sum [x]) with (1 * x) by (unfold py_sum; simpl; lia).
    rewrite fraction_integer by lia. reflexivity.
  - exact stdev_value_zero.
  - intros values Hlen. destruct values as [|x xs]; [simpl in Hlen; lia|].
    exists (mean_of (x :: xs)), (stdev_of (x :: xs)).
    split; [apply calculate_stats_cons|].
    split; [now apply mean_of_Qdiv|].
    unfold stdev_value. f_equal. apply Qeq_eqR.
    now apply stdev_of_sum_sq_dev.
  - intros k n Hn. destruct n as [|n]; [lia|].
    cbn [repeat]. rewrite calculate_stats_cons.
    change (k :: repeat k n) with (repeat k (S n)).
    unfold mean_of, stdev_of.
    rewrite map_repeat, !py_sum_repeat, repeat_length.
    rewrite fraction_integer by lia.
    destruct (Z.of_nat (S n) >? 1); [|reflexivity].
    replace (Z.of_nat (S n) * (Z.of_nat (S n) * (k * k))
             - Z.of_nat (S n) * k * (Z.of_nat (S n) * k)) with 0 by ring.
    now rewrite fraction_zero.
Qed.

(** Excellent, Good, Excellent: mean 13/3 (4.33), deviation the square
    root of 4/3 (1.15). *)
Example calculate_stats_scenario :
  calculate_stats [5; 3; 5] = Ok (Some (13 # 3)%Q, Some (Sqrt (4 # 3))).
Proof. vm_compute. reflexivity. Qed.

(** The statistics depend on the data through their length, their sum and
    the sum of their squares only. *)
Lemma calculate_stats_Permutation (values values' : list Z) :
  Permutation values values' -> calculate_stats values = calculate_stats values'.
Proof.
  intros Hp.
  assert (Hlen := Permutation_length Hp).
  assert (Hsum := py_sum_Permutation _ _ Hp).
  assert (Hsq := py_sum_Permutation _ _
                   (Permutation_map (fun x => x * x) Hp)).
  destruct values as [|x xs], values' as [|y ys]; try discriminate Hlen.
  - reflexivity.
  - rewrite !calculate_stats_cons. unfold mean_of, stdev_of.
    now rewrite Hlen, Hsum, Hsq.
Qed.

(** ** Orders given by a three-way comparison *)

(** What [list.sort] needs of the comparison of its elements. *)
Class CmpOrder {A : Type} (cmp : A -> A -> comparison) : Prop := {
  cmp_antisym : forall a b, cmp b a = CompOpp (cmp a b);
  cmp_eq_subst : forall a b c, cmp a b = Eq -> cmp a c = cmp b c;
  cmp_lt_trans : forall a b c, cmp a b = Lt -> cmp b c = Lt -> cmp a c = Lt
}.

Section CmpOrderFacts.
Context {A : Type} (cmp : A -> A -> comparison) `{!CmpOrder cmp}.

Lemma cmp_eq_subst_r a b c : cmp b c = Eq -> cmp a b = cmp a c.
Proof.
  intros H.
  assert (Hcb : cmp c b = Eq) by (rewrite (cmp_antisym (cmp:=cmp) b c), H; reflexivity).
  rewrite (cmp_antisym (cmp:=cmp) b a), (cmp_antisym (cmp:=cmp) c a).
  f_equal. symmetry. now apply (cmp_eq_subst (cmp:=cmp)).
Qed.

Lemma cmp_le_trans a b c :
  cmp a b <> Gt -> cmp b c <> Gt -> cmp a c <> Gt.
Proof.
  intros Hab Hbc.
  destruct (cmp a b) eqn:Eab; [| |congruence].
  - now rewrite (cmp_eq_subst (cmp:=cmp) a b c Eab).
  - destruct (cmp b c) eqn:Ebc; [| |congruence].
    + rewrite <- (cmp_eq_subst_r a b c Ebc), Eab. discriminate.
    + rewrite (cmp_lt_trans (cmp:=cmp) a b c Eab Ebc). discriminate.
Qed.

Lemma cmp_flip a b : cmp a b <> Lt <-> cmp b a <> Gt.
Proof.
  rewrite (cmp_antisym (cmp:=cmp) a b). destruct (cmp a b); simpl; split; congruence.
Qed.

Lemma cmp_ge_trans a b c :
  cmp a b <> Lt -> cmp b c <> Lt -> cmp a c <> Lt.
Proof.
  rewrite !cmp_flip. intros Hab Hbc. now apply (cmp_le_trans c b a).
Qed.

End CmpOrderFacts.

Lemma lex_order {A : Type} (cmp1 cmp2 : A -> A -> comparison) :
  CmpOrder cmp1 -> CmpOrder cmp2 ->
  CmpOrder (fun a b => lex (cmp1 a b) (cmp2 a b)).
Proof.
  intros H1 H2. split.
  - intros a b. rewrite (cmp_antisym (cmp:=cmp1) a b), (cmp_antisym (cmp:=cmp2) a b).
    destruct (cmp1 a b); reflexivity.
  - intros a b c H. unfold lex in H.
    destruct (cmp1 a b) eqn:E1; try discriminate.
    rewrite (cmp_eq_subst (cmp:=cmp1) a b c E1).
    now rewrite (cmp_eq_subst (cmp:=cmp2) a b c H).
  - intros a b c Hab Hbc. unfold lex in *.
    destruct (cmp1 a b) eqn:E1; try discriminate.
    + rewrite (cmp_eq_subst (cmp:=cmp1) a b c E1).
      destruct (cmp1 b c) eqn:E2; try discriminate; [|reflexivity].
      now apply (cmp_lt_trans (cmp:=cmp2) a b c).
    + destruct (cmp1 b c) eqn:E2; try discriminate.
      * now rewrite <- (cmp_eq_subst_r cmp1 a b c E2), E1.
      * now rewrite (cmp_lt_trans (cmp:=cmp1) a b c E1 E2).
Qed.

Lemma proj_order {A B : Type} (f : A -> B) (cmp : B -> B -> comparison) :
  CmpOrder cmp -> CmpOrder (fun a b => cmp (f a) (f b)).
Proof.
  intros H. split.
  - intros a b. apply cmp_antisym.
  - intros a b c. apply cmp_eq_subst.
  - intros a b c. apply cmp_lt_trans.
Qed.

#[global] Instance Z_compare_order : CmpOrder Z.compare.
Proof.
  split.
  - intros a b. apply Z.compare_antisym.
  - intros a b c H. apply Z.compare_eq in H. now subst.
  - intros a b c. rewrite !Z.compare_lt_iff. lia.
Qed.

#[global] Instance Q_compare_order : CmpOrder Qcompare.
Proof.
  split.
  - intros a b. symmetry. apply Qcompare_antisym.
  - intros a b c H. apply Qeq_alt in H. now rewrite H.
  - intros a b c. rewrite <- !Qlt_alt. apply Qlt_trans.
Qed.

Lemma ascii_compare_lt_trans (a b c : ascii) :
  Ascii.compare a b = Lt -> Ascii.compare b c = Lt -> Ascii.compare a c = Lt.
Proof.
  unfold Ascii.compare. rewrite !N.compare_lt_iff. lia.
Qed.

Lemma string_compare_lt_trans (a b c : string) :
  String.compare a b = Lt -> String.compare b c = Lt -> String.compare a c = Lt.
Proof.
  revert b c. induction a as [|x a IH]; intros [|y b] [|z c]; simpl;
    try discriminate; try reflexivity.
  destruct (Ascii.compare x y) eqn:Exy; try discriminate;
    destruct (Ascii.compare y z) eqn:Eyz; try discriminate; intros Hab Hbc.
  - apply Ascii.compare_eq_iff in Exy, Eyz. subst.
    assert (Hzz : Ascii.compare z z = Eq).
    { unfold Ascii.compare. apply N.compare_refl. }
    rewrite Hzz. now apply (IH b c).
  - apply Ascii.compare_eq_iff in Exy. subst. now rewrite Eyz.
  - apply Ascii.compare_eq_iff in Eyz. subst. now rewrite Exy.
  - now rewrite (ascii_compare_lt_trans x y z Exy Eyz).
Qed.

#[global] Instance string_compare_order : CmpOrder String.compare.
Proof.
  split.
  - intros a b. apply String.compare_antisym.
  - intros a b c H. apply String.compare_eq_iff in H. now subst.
  - apply string_compare_lt_trans.
Qed.

(** ** Sorting *)

Lemma StronglySorted_mono {A : Type} (R R' : A -> A -> Prop) (l : list A) :
  (forall a b, R a b -> R' a b) -> StronglySorted R l -> StronglySorted R' l.
Proof.
  intros HR. induction 1 as [|a l Hs IH Hall]; constructor; [exact IH|].
  eapply Forall_impl; [exact Hall|]. intros b. apply HR.
Qed.

Lemma StronglySorted_rev {A : Type} (R : A -> A -> Prop) (l : list A) :
  StronglySorted R l -> StronglySorted (fun a b => R b a) (rev l).
Proof.
  induction 1 as [|a l Hs IH Hall]; simpl; [constructor|].
  apply StronglySorted_app_2.
  - intros x1 x2 Hx1 Hx2. apply list_elem_of_In in Hx1, Hx2.
    destruct Hx2 as [<-|[]]. apply in_rev in Hx1.
    rewrite Forall_forall in Hall. apply Hall. now apply list_elem_of_In.
  - exact IH.
  - repeat constructor.
Qed.

Section SortFacts.
Context {A : Type} (cmp : A -> A -> comparison) `{!CmpOrder cmp}.
Variable lt : A -> A -> bool.
Hypothesis lt_cmp : forall a b, lt a b = true <-> cmp a b = Lt.

Lemma insort_Permutation (x : A) (l : list A) :
  Permutation (insort lt x l) (x :: l).
Proof.
  induction l as [|y l IH]; simpl; [reflexivity|].
  destruct (lt x y); [reflexivity|].
  rewrite IH. apply perm_swap.
Qed.

Lemma insort_sorted (x : A) (l : list A) :
  StronglySorted (fun a b => cmp a b <> Gt) l ->
  StronglySorted (fun a b => cmp a b <> Gt) (insort lt x l).
Proof.
  induction 1 as [|y l Hs IH Hall]; simpl.
  - repeat constructor.
  - destruct (lt x y) eqn:Hxy.
    + apply lt_cmp in Hxy.
      assert (Hle : cmp x y <> Gt) by (rewrite Hxy; discriminate).
      constructor; [now constructor|].
      constructor; [exact Hle|].
      eapply Forall_impl; [exact Hall|]. intros z Hz.
      now apply (cmp_le_trans cmp x y z).
    + constructor; [exact IH|].
      apply (Permutation_Forall (Permutation_sym (insort_Permutation x l))).
      constructor; [|exact Hall].
      apply (cmp_flip cmp). intros Hc. apply lt_cmp in Hc. congruence.
Qed.

Lemma stable_sort_acc (l acc : list A) :
  StronglySorted (fun a b => cmp a b <> Gt) acc ->
  StronglySorted (fun a b => cmp a b <> Gt)
    (fold_left (fun acc x => insort lt x acc) l acc) /\
  Permutation (fold_left (fun acc x => insort lt x acc) l acc) (l ++ acc).
Proof.
  revert acc. induction l as [|x l IH]; intros acc Hacc; simpl.
  - split; [exact Hacc|reflexivity].
  - destruct (IH (insort lt x acc) (insort_sorted x acc Hacc)) as [Hs Hp].
    split; [exact Hs|]. rewrite Hp, insort_Permutation.
    symmetry. apply Permutation_middle.
Qed.

(** [list.sort()] leaves a permutation in ascending order, and
    [list.sort(reverse=True)] one in descending order. *)
Lemma list_sort_ascending (l : list A) :
  StronglySorted (fun a b => cmp a b <> Gt) (list_sort lt false l) /\
  Permutation (list_sort lt false l) l.
Proof.
  unfold list_sort, stable_sort.
  destruct (stable_sort_acc l [] (SSorted_nil _)) as [Hs Hp].
  split; [exact Hs|]. now rewrite Hp, app_nil_r.
Qed.

Lemma list_sort_descending (l : list A) :
  StronglySorted (fun a b => cmp a b <> Lt) (list_sort lt true l) /\
  Permutation (list_sort lt true l) l.
Proof.
  unfold list_sort, stable_sort.
  destruct (stable_sort_acc (rev l) [] (SSorted_nil _)) as [Hs Hp].
  split.
  - apply StronglySorted_rev in Hs.
    eapply StronglySorted_mono; [|exact Hs].
    intros a b Hba. now apply (cmp_flip cmp).
  - rewrite <- Permutation_rev, Hp, app_nil_r. symmetry. apply Permutation_rev.
Qed.

End SortFacts.

(** ** Ranking *)

Lemma ranked_stat_compare_order : CmpOrder ranked_stat_compare.
Proof.
  unfold ranked_stat_compare.
  apply (lex_order (fun a b => (rs_mean a ?= rs_mean b)%Q)).
  - apply (proj_order rs_mean Qcompare). exact _.
  - apply (lex_order (fun a b => (radicand (rs_std a) ?= radicand (rs_std b))%Q)).
    + apply (proj_order (fun t => radicand (rs_std t)) Qcompare). exact _.
    + apply (lex_order (fun a b => String.compare (rs_label a) (rs_label b))
                       (fun a b => rs_n a ?= rs_n b)).
      * apply (proj_order rs_label String.compare). exact _.
      * apply (proj_order rs_n Z.compare). exact _.
Qed.

Lemma ranked_stat_ltb_cmp (a b : ranked_stat) :
  ranked_stat_ltb a b = true <-> ranked_stat_compare a b = Lt.
Proof.
  unfold ranked_stat_ltb. destruct (ranked_stat_compare a b); split; congruence.
Qed.

(** The question has data in the aggregate. *)
Definition has_data (all_ratings : gmap string (list Z)) (label : string) : bool :=
  match all_ratings !! label with
  | Some (_ :: _) => true
  | _ => false
  end.

(** The ranked statistic of a label, when it has data. *)
Definition entry_of (all_ratings : gmap string (list Z)) (label : string)
    : list ranked_stat :=
  match all_ratings !! label with
  | Some ((_ :: _) as vs) =>
      [(mean_of vs, stdev_of vs, label, Z.of_nat (length vs))]
  | _ => []
  end.

Lemma ranking_step_Ok all_ratings (acc : list ranked_stat) (label : string) :
  ranking_step all_ratings (Ok acc) label = Ok (acc ++ entry_of all_ratings label).
Proof.
  unfold ranking_step, entry_of. cbn [mbind result_bind].
  destruct (all_ratings !! label) as [[|x xs]|].
  - now rewrite app_nil_r.
  - rewrite calculate_stats_cons. reflexivity.
  - now rewrite app_nil_r.
Qed.

Lemma ranking_fold all_ratings (labels : list string) (acc : list ranked_stat) :
  fold_left (ranking_step all_ratings) labels (Ok acc) =
  Ok (acc ++ flat_map (entry_of all_ratings) labels).
Proof.
  revert acc. induction labels as [|label labels IH]; intros acc;
    cbn [fold_left flat_map].
  - now rewrite app_nil_r.
  - rewrite ranking_step_Ok, IH. now rewrite <- app_assoc.
Qed.

Lemma aggregate_ranking_eq all_ratings :
  aggregate_ranking all_ratings =
  Ok (list_sort ranked_stat_ltb true (flat_map (entry_of all_ratings) question_labels)).
Proof. unfold aggregate_ranking. now rewrite ranking_fold. Qed.

Lemma entries_labels all_ratings (labels : list string) :
  List.map rs_label (flat_map (entry_of all_ratings) labels) =
  List.filter (has_data all_ratings) labels.
Proof.
  induction labels as [|label labels IH]; simpl; [reflexivity|].
  rewrite map_app, IH. unfold entry_of, has_data.
  destruct (all_ratings !! label) as [[|x xs]|]; reflexivity.
Qed.

Lemma entries_stats all_ratings (labels : list string) (t : ranked_stat) :
  In t (flat_map (entry_of all_ratings) labels) ->
  series all_ratings (rs_label t) <> [] /\
  calculate_stats (series all_ratings (rs_label t)) =
    Ok (Some (rs_mean t), Some (rs_std t)) /\
  rs_n t = Z.of_nat (length (series all_ratings (rs_label t))).
Proof.
  intros Hin. apply in_flat_map in Hin. destruct Hin as (label & _ & Hin).
  unfold entry_of in Hin.
  destruct (all_ratings !! label) as [[|x xs]|] eqn:E;
    [destruct Hin | | destruct Hin].
  destruct Hin as [<-|[]]. unfold rs_label, rs_mean, rs_std, rs_n, series.
  cbn [fst snd]. rewrite E. cbn [default]. split; [discriminate|].
  split; [apply calculate_stats_cons|reflexivity].
Qed.

(** What the ranking is: every label with data once, each with its
    statistics, in descending order of the tuples. *)
Lemma aggregate_ranking_sorted all_ratings :
  exists sorted_ratings,
    aggregate_ranking all_ratings = Ok sorted_ratings /\
    Permutation (List.map rs_label sorted_ratings)
      (List.filter (has_data all_ratings) question_labels) /\
    List.NoDup (List.map rs_label sorted_ratings) /\
    (forall t, In t sorted_ratings ->
       series all_ratings (rs_label t) <> [] /\
       calculate_stats (series all_ratings (rs_label t)) =
         Ok (Some (rs_mean t), Some (rs_std t)) /\
       rs_n t = Z.of_nat (length (series all_ratings (rs_label t)))) /\
    StronglySorted (fun a b => ranked_stat_compare a b <> Lt) sorted_ratings.
Proof.
  eexists. split; [apply aggregate_ranking_eq|].
  destruct (list_sort_descending ranked_stat_compare (CmpOrder0:=ranked_stat_compare_order)
              ranked_stat_ltb ranked_stat_ltb_cmp
              (flat_map (entry_of all_ratings) question_labels)) as [Hs Hp].
  assert (Hlabels : Permutation
            (List.map rs_label (list_sort ranked_stat_ltb true
               (flat_map (entry_of all_ratings) question_labels)))
            (List.filter (has_data all_ratings) question_labels)).
  { rewrite <- entries_labels. now apply Permutation_map. }
  split; [exact Hlabels|]. split; [|split; [|exact Hs]].
  - apply (Permutation_NoDup (Permutation_sym Hlabels)).
    apply List.NoDup_filter. exact question_labels_NoDup.
  - intros t Ht. apply (entries_stats all_ratings question_labels).
    eapply Permutation_in; [exact Hp|exact Ht].
Qed.

Lemma lex_not_Lt (c1 c2 : comparison) : lex c1 c2 <> Lt -> c1 <> Lt.
Proof. destruct c1; simpl; congruence. Qed.

Lemma Qcompare_not_Lt (p q : Q) : (p ?= q)%Q <> Lt -> (q <= p)%Q.
Proof.
  intros H. apply Qnot_lt_le. intros Hlt. apply H. apply -> Qlt_alt. exact Hlt.
Qed.

Lemma Qcompare_Eq (p q : Q) : (p == q)%Q -> (p ?= q)%Q = Eq.
Proof. intros H. apply -> Qeq_alt. exact H. Qed.

Lemma In_drop {A : Type} (k : nat) (l : list A) (x : A) :
  In x (drop k l) -> In x l.
Proof.
  revert l. induction k as [|k IH]; intros [|y l]; simpl; auto.
Qed.

(** With six entries or more the first three and the last three positions
    do not meet. *)
Lemma slices_disjoint {A B : Type} (key : A -> B) (l : list A) (a b : A) :
  List.NoDup (List.map key l) -> (6 <= length l)%nat ->
  In a (slice_first 3 l) -> In b (slice_last 3 l) -> key a <> key b.
Proof.
  unfold slice_first, slice_last. intros Hnd Hlen Ha Hb Heq.
  replace (length l - 3)%nat with (3 + (length l - 6))%nat in Hb by lia.
  rewrite <- drop_drop in Hb. apply In_drop in Hb.
  rewrite <- (take_drop 3 l), map_app in Hnd.
  apply NoDup_ListNoDup, NoDup_app in Hnd. destruct Hnd as (_ & Hdis & _).
  apply (Hdis (key a)).
  - apply list_elem_of_In. now apply in_map.
  - rewrite Heq. apply list_elem_of_In. now apply in_map.
Qed.

Definition five_questions : gmap string (list Z) :=
  list_to_map
    [ ("Outcomes Stated", [5; 5]); ("Interactions", [5; 4]);
      ("Accessible", [4; 4]); ("Feedback", [4; 3]); ("Challenged", [3; 3]) ].

(** C5. The ranking lists every label with data once, in descending order
    of mean; with six entries or more no label is both among the first
    three and among the last three (whether or not the means differ); with
    five labels, of different means, the third entry is in both slices. *)
Theorem aggregate_ranking_spec (all_ratings : gmap string (list Z)) :
  (exists sorted_ratings,
     aggregate_ranking all_ratings = Ok sorted_ratings /\
     Permutation (List.map rs_label sorted_ratings)
       (List.filter (has_data all_ratings) question_labels) /\
     (forall t, In t sorted_ratings ->
        calculate_stats (series all_ratings (rs_label t)) =
          Ok (Some (rs_mean t), Some (rs_std t))) /\
     StronglySorted (fun a b => (rs_mean b <= rs_mean a)%Q) sorted_ratings /\
     ((6 <= length sorted_ratings)%nat ->
      forall a b, In a (top3 sorted_ratings) -> In b (bottom3 sorted_ratings) ->
        rs_label a <> rs_label b)) /\
  (exists sorted_ratings t,
     aggregate_ranking five_questions = Ok sorted_ratings /\
     List.map rs_mean sorted_ratings = [5; 9 # 2; 4; 7 # 2; 3]%Q /\
     In t (top3 sorted_ratings) /\ In t (bottom3 sorted_ratings)).
Proof.
  split.
  - destruct (aggregate_ranking_sorted all_ratings)
      as (sorted & Heq & Hperm & Hnd & Hstats & Hs).
    exists sorted. split; [exact Heq|]. split; [exact Hperm|].
    split; [|split].
    + intros t Ht. now apply Hstats.
    + eapply StronglySorted_mono; [|exact Hs].
      intros a b Hab. unfold ranked_stat_compare in Hab.
      now apply lex_not_Lt, Qcompare_not_Lt in Hab.
    + intros Hlen a b Ha Hb. now apply (slices_disjoint rs_label sorted).
  - eexists. exists (4%Q, Sqrt 0, "Accessible", 2).
    split; [vm_compute; reflexivity|].
    split; [reflexivity|]. split; simpl; tauto.
Qed.

(** C10. Of two entries with equal means the one with the larger deviation
    comes first, and with equal deviations too the one whose label is the
    greater string comes first; so [Interest] precedes [Challenged] on a
    full tie, although it is declared, and was appended, after it. *)
Theorem ranking_tie_break :
  (forall all_ratings sorted_ratings l1 a l2 b l3,
     aggregate_ranking all_ratings = Ok sorted_ratings ->
     sorted_ratings = l1 ++ a :: l2 ++ b :: l3 ->
     (rs_mean a == rs_mean b)%Q ->
     (radicand (rs_std b) <= radicand (rs_std a))%Q /\
     ((radicand (rs_std a) == radicand (rs_std b))%Q ->
      String.ltb (rs_label b) (rs_label a) = true)) /\
  (let tied : gmap string (list Z) :=
     list_to_map [ ("Challenged", [4; 5]); ("Interest", [5; 4]) ] in
   List.filter (has_data tied) question_labels = ["Challenged"; "Interest"] /\
   fold_left (ranking_step tied) question_labels (Ok []) =
     Ok [ ((9 # 2)%Q, Sqrt (1 # 2), "Challenged", 2);
          ((9 # 2)%Q, Sqrt (1 # 2), "Interest", 2) ] /\
   aggregate_ranking tied =
     Ok [ ((9 # 2)%Q, Sqrt (1 # 2), "Interest", 2);
          ((9 # 2)%Q, Sqrt (1 # 2), "Challenged", 2) ]).
Proof.
  split.
  - intros all_ratings sorted l1 a l2 b l3 Hrank -> Hmean.
    destruct (aggregate_ranking_sorted all_ratings)
      as (sorted & Heq & _ & Hnd & _ & Hs).
    rewrite Hrank in Heq. inversion Heq; subst sorted. clear Heq.
    apply StronglySorted_app_1_r, StronglySorted_inv in Hs.
    destruct Hs as [_ Hall]. rewrite Forall_forall in Hall.
    assert (Hab : ranked_stat_compare a b <> Lt).
    { apply Hall. apply list_elem_of_In, in_or_app. right. simpl. auto. }
    assert (Hne : rs_label a <> rs_label b).
    { rewrite map_app in Hnd. apply List.NoDup_app_remove_l in Hnd.
      simpl in Hnd. apply List.NoDup_cons_iff in Hnd. destruct Hnd as [Hnotin _].
      intros Heq. apply Hnotin. rewrite Heq. apply in_map.
      apply in_or_app. right. simpl. auto. }
    unfold ranked_stat_compare in Hab.
    rewrite (Qcompare_Eq _ _ Hmean) in Hab. cbn [lex] in Hab.
    split.
    + now apply lex_not_Lt, Qcompare_not_Lt in Hab.
    + intros Hstd. rewrite (Qcompare_Eq _ _ Hstd) in Hab. cbn [lex] in Hab.
      apply lex_not_Lt in Hab.
      unfold String.ltb. rewrite String.compare_antisym.
      destruct (String.compare (rs_label a) (rs_label b)) eqn:Ecmp.
      * apply String.compare_eq_iff in Ecmp. contradiction.
      * congruence.
      * reflexivity.
  - vm_compute. repeat split; reflexivity.
Qed.

(** ** Aggregator *)

Lemma merge_label_obs ratings acc (l label : string) :
  series (merge_label ratings acc l) label =
  series acc label ++ (if String.eqb l label then series ratings l else []).
Proof.
  unfold merge_label, series at 3.
  destruct (ratings !! l) as [[|x xs]|]; cbn [default].
  - destruct (String.eqb l label); now rewrite app_nil_r.
  - apply series_dd_extend.
  - destruct (String.eqb l label); now rewrite app_nil_r.
Qed.

Lemma process_file_ratings agg (f : eval_file) (label : string) :
  In label question_labels ->
  series (all_ratings (process_file agg f)) label =
  series (all_ratings agg) label ++ series (fst (extract_ratings (snd f))) label.
Proof.
  intros Hin. destruct f as [name responses]. unfold process_file. cbn [snd].
  destruct (parse_course_info name) as [[semester course] section].
  destruct (extract_ratings responses) as [ratings effectiveness].
  destruct (extract_comments responses) as [beneficial improvement].
  cbn [all_ratings fst snd].
  rewrite (fold_left_obs (fun m => series m label) (merge_label ratings)
             (fun l => if String.eqb l label then series ratings l else [])).
  - f_equal.
    apply (flat_map_select (fun l : string => l) (series ratings) question_labels label).
    + rewrite map_id. exact question_labels_NoDup.
    + exact Hin.
  - intros s l. apply merge_label_obs.
Qed.

Lemma process_file_effectiveness agg (f : eval_file) :
  all_effectiveness (process_file agg f) =
  all_effectiveness agg ++ snd (extract_ratings (snd f)).
Proof.
  destruct f as [name responses]. unfold process_file. cbn [snd].
  destruct (parse_course_info name) as [[semester course] section].
  destruct (extract_ratings responses) as [ratings effectiveness].
  destruct (extract_comments responses) as [beneficial improvement].
  cbn [all_effectiveness fst snd].
  destruct effectiveness; [now rewrite app_nil_r|reflexivity].
Qed.

Lemma process_file_comments agg (f : eval_file) :
  all_beneficial (process_file agg f) =
    all_beneficial agg ++ fst (extract_comments (snd f)) /\
  all_improvement (process_file agg f) =
    all_improvement agg ++ snd (extract_comments (snd f)).
Proof.
  destruct f as [name responses]. unfold process_file. cbn [snd].
  destruct (parse_course_info name) as [[semester course] section].
  destruct (extract_ratings responses) as [ratings effectiveness].
  destruct (extract_comments responses) as [beneficial improvement].
  split; reflexivity.
Qed.

(** The aggregate sequences after the file loop, whatever the order of the
    files. *)
Lemma process_files_spec (files : list eval_file) :
  (forall label, In label question_labels ->
     series (all_ratings (process_files files)) label =
     flat_map (fun f => series (fst (extract_ratings (snd f))) label) files) /\
  all_effectiveness (process_files files) =
    flat_map (fun f => snd (extract_ratings (snd f))) files /\
  all_beneficial (process_files files) =
    flat_map (fun f => fst (extract_comments (snd f))) files /\
  all_improvement (process_files files) =
    flat_map (fun f => snd (extract_comments (snd f))) files.
Proof.
  unfold process_files. repeat apply conj.
  - intros label Hin.
    rewrite (fold_left_obs (fun agg => series (all_ratings agg) label) process_file
               (fun f => series (fst (extract_ratings (snd f))) label));
      [reflexivity|].
    intros s f. now apply process_file_ratings.
  - rewrite (fold_left_obs all_effectiveness process_file
               (fun f => snd (extract_ratings (snd f)))); [reflexivity|].
    intros s f. apply process_file_effectiveness.
  - rewrite (fold_left_obs all_beneficial process_file
               (fun f => fst (extract_comments (snd f)))); [reflexivity|].
    intros s f. apply process_file_comments.
  - rewrite (fold_left_obs all_improvement process_file
               (fun f => snd (extract_comments (snd f)))); [reflexivity|].
    intros s f. apply process_file_comments.
Qed.

Lemma file_ltb_cmp (a b : eval_file) :
  file_ltb a b = true <-> String.compare (fst a) (fst b) = Lt.
Proof.
  unfold file_ltb, String.ltb.
  destruct (String.compare (fst a) (fst b)); split; congruence.
Qed.

(** [sorted(eval_files)] is the files in ascending order of name. *)
Lemma sorted_files_spec (eval_files : list eval_file) :
  Permutation (sorted_files eval_files) eval_files /\
  StronglySorted (fun a b => String.leb (fst a) (fst b) = true)
    (sorted_files eval_files).
Proof.
  destruct (list_sort_ascending (fun a b : eval_file => String.compare (fst a) (fst b))
              (CmpOrder0 := proj_order fst String.compare string_compare_order)
              file_ltb file_ltb_cmp eval_files) as [Hs Hp].
  split; [exact Hp|].
  eapply StronglySorted_mono; [|exact Hs].
  intros a b Hab. cbv beta in Hab. unfold String.leb.
  destruct (String.compare (fst a) (fst b)); congruence.
Qed.

(** C6. The files are processed in ascending order of their names, and
    after the loop the aggregate series of every question label, the
    aggregate effectiveness series and both aggregate comment sequences are
    the per-file sequences concatenated in that order; the length of an
    aggregate series is the sum of the per-file lengths. *)
Theorem aggregation_is_concatenation (eval_files : list eval_file) :
  let files := sorted_files eval_files in
  let agg := main_aggregate eval_files in
  Permutation files eval_files /\
  StronglySorted (fun a b => String.leb (fst a) (fst b) = true) files /\
  (forall label, In label question_labels ->
     series (all_ratings agg) label =
       concat (List.map (fun f => series (fst (extract_ratings (snd f))) label) files) /\
     length (series (all_ratings agg) label) =
       list_sum (List.map
         (fun f => length (series (fst (extract_ratings (snd f))) label)) files)) /\
  all_effectiveness agg =
    concat (List.map (fun f => snd (extract_ratings (snd f))) files) /\
  all_beneficial agg =
    concat (List.map (fun f => fst (extract_comments (snd f))) files) /\
  all_improvement agg =
    concat (List.map (fun f => snd (extract_comments (snd f))) files).
Proof.
  intros files agg. subst files agg. unfold main_aggregate.
  destruct (sorted_files_spec eval_files) as [Hp Hs].
  destruct (process_files_spec (sorted_files eval_files)) as (Hr & He & Hb & Hi).
  split; [exact Hp|]. split; [exact Hs|].
  rewrite <- !flat_map_concat_map. repeat apply conj; try assumption.
  intros label Hin. rewrite <- flat_map_concat_map, (Hr label Hin).
  split; [reflexivity|apply length_flat_map].
Qed.

Definition sample_files : list eval_file :=
  [ ("Coleman Jared Fall 2025 Programming Lab CMSI 186 02.csv",
     [ [ ("The course challenged me to do my best work", "Agree");
         ("Overall Effectiveness", "Excellent");
         ("What was most beneficial?", "the labs") ] ]);
    ("Coleman Jared Fall 2025 Programming Lab CMSI 186 01.csv",
     [ [ ("The course challenged me to do my best work", "Disagree");
         ("Overall Effectiveness", "Good");
         ("What was most beneficial?", "office hours") ];
       [ ("The course challenged me to do my best work", "Uncertain");
         ("Overall Effectiveness", "");
         ("What was most beneficial?", "") ] ]) ].

(** Section 01 sorts before section 02 although it is listed after it. *)
Example main_aggregate_sample :
  let agg := main_aggregate sample_files in
  series (all_ratings agg) "Challenged" = [2; 3; 4] /\
  all_effectiveness agg = [3; 5] /\
  all_beneficial agg = ["office hours"; "the labs"] /\
  List.map (fun cs => (cs_semester cs, cs_course cs, cs_section cs, cs_n_responses cs))
    (course_summaries agg)
  = [ ("Fall 2025", "CMSI 186", "01", 2); ("Fall 2025", "CMSI 186", "02", 1) ].
Proof. vm_compute. repeat split; reflexivity. Qed.

(** C9. The reducer gives the same pair for a sequence and for any
    permutation of it; hence the statistics of every aggregate series are
    the same whatever the order in which the files are processed. *)
Theorem statistics_order_invariant :
  (forall values values' : list Z,
     Permutation values values' ->
     calculate_stats values = calculate_stats values') /\
  (forall files files' : list eval_file,
     Permutation files files' ->
     (forall label, In label question_labels ->
        calculate_stats (series (all_ratings (process_files files)) label) =
        calculate_stats (series (all_ratings (process_files files')) label)) /\
     calculate_stats (all_effectiveness (process_files files)) =
     calculate_stats (all_effectiveness (process_files files'))).
Proof.
  split; [exact calculate_stats_Permutation|].
  intros files files' Hp.
  destruct (process_files_spec files) as (Hr & He & _).
  destruct (process_files_spec files') as (Hr' & He' & _).
  split.
  - intros label Hin. rewrite (Hr label Hin), (Hr' label Hin).
    apply calculate_stats_Permutation. now apply Permutation_flat_map.
  - rewrite He, He'.
    apply calculate_stats_Permutation. now apply Permutation_flat_map.
Qed.

(** The two orders of the sample files give different aggregate series and
    the same statistics. *)
Example statistics_order_sample :
  series (all_ratings (process_files sample_files)) "Challenged" = [4; 2; 3] /\
  series (all_ratings (process_files (rev sample_files))) "Challenged" = [2; 3; 4] /\
  calculate_stats [4; 2; 3] = Ok (Some 3%Q, Some (Sqrt 1)) /\
  calculate_stats [2; 3; 4] = Ok (Some 3%Q, Some (Sqrt 1)).
Proof. vm_compute. repeat split; reflexivity. Qed.

(** ** The matcher against the language of the expression *)

Module RegexFacts.
Import Regex.

Lemma append_nil_r (s : string) : s +:+ "" = s.
Proof. induction s; simpl; congruence. Qed.

Lemma append_assoc (a b c : string) : (a +:+ b) +:+ c = a +:+ b +:+ c.
Proof. induction a; simpl; congruence. Qed.

Lemma length_append (a b : string) :
  String.length (a +:+ b) = (String.length a + String.length b)%nat.
Proof. induction a; simpl; congruence. Qed.

(** Every character of [s] is in the class [p]. *)
Fixpoint all_chars (p : ascii -> bool) (s : string) : bool :=
  match s with
  | EmptyString => true
  | String c s' => p c && all_chars p s'
  end.

(** [Matches r u c c']: the text [u] is in the language of [r], and
    matching it turns the captures [c] into [c']. *)
Inductive Matches : regex -> string -> captures -> captures -> Prop :=
| M_Lit l c : Matches (Lit l) l c c
| M_Rep n p u c :
    String.length u = n -> all_chars p u = true -> Matches (Rep n p) u c c
| M_Plus p u c :
    u <> "" -> all_chars p u = true -> Matches (Plus p) u c c
| M_LazyStar p u c :
    all_chars p u = true -> Matches (LazyStar p) u c c
| M_AltL r1 r2 u c c' : Matches r1 u c c' -> Matches (Alt r1 r2) u c c'
| M_AltR r1 r2 u c c' : Matches r2 u c c' -> Matches (Alt r1 r2) u c c'
| M_Seq r1 r2 u1 u2 c c' c'' :
    Matches r1 u1 c c' -> Matches r2 u2 c' c'' ->
    Matches (Seq r1 r2) (u1 +:+ u2) c c''
| M_Group i r u c c' :
    Matches r u c c' -> Matches (Group i r) u c (<[i := u]> c').

Lemma consumed_app (u rest : string) : consumed (u +:+ rest) rest = u.
Proof.
  unfold consumed. rewrite length_append.
  replace (String.length u + String.length rest - String.length rest)%nat
    with (String.length u) by lia.
  induction u as [|c u IH]; simpl.
  - now destruct rest.
  - now rewrite IH.
Qed.

Lemma match_lit_spec (l s rest : string) :
  match_lit l s = Some rest <-> s = l +:+ rest.
Proof.
  revert s. induction l as [|a l IH]; intros s; simpl.
  - split; congruence.
  - destruct s as [|b s]; [split; discriminate|].
    destruct (Ascii.eqb_spec a b) as [->|Hne].
    + rewrite IH. split; congruence.
    + split; [discriminate|congruence].
Qed.

Lemma match_rep_spec (n : nat) (p : ascii -> bool) (s rest : string) :
  match_rep n p s = Some rest <->
  exists u, s = u +:+ rest /\ String.length u = n /\ all_chars p u = true.
Proof.
  revert s. induction n as [|n IH]; intros s; simpl.
  - split.
    + intros H. inversion H. exists "". auto.
    + intros (u & -> & Hlen & _). destruct u; [reflexivity|discriminate].
  - destruct s as [|c s].
    + split; [discriminate|].
      intros ([|c u] & Hs & Hlen & _); discriminate.
    + destruct (p c) eqn:Hp.
      * rewrite IH. split.
        -- intros (u & -> & Hlen & Hall). exists (String c u).
           simpl. rewrite Hp, Hall. auto.
        -- intros ([|c' u] & Hs & Hlen & Hall); [discriminate|].
           simpl in *. inversion Hs; subst. rewrite Hp in Hall.
           exists u. auto.
      * split; [discriminate|].
        intros ([|c' u] & Hs & Hlen & Hall); [discriminate|].
        simpl in *. inversion Hs; subst. rewrite Hp in Hall. discriminate.
Qed.

Section Quantifiers.
Context {R : Type} (p : ascii -> bool) (k : string -> option R).

Lemma greedy_star_sound (s : string) (r : R) :
  greedy_star p s k = Some r ->
  exists u rest, s = u +:+ rest /\ all_chars p u = true /\ k rest = Some r.
Proof.
  induction s as [|c s IH]; simpl; intros H.
  - exists "", "". auto.
  - destruct (p c) eqn:Hp.
    + destruct (greedy_star p s k) as [r'|] eqn:Hg.
      * inversion H; subst. destruct (IH eq_refl) as (u & rest & -> & Hall & Hk).
        exists (String c u), rest. simpl. rewrite Hp, Hall. auto.
      * exists "", (String c s). auto.
    + exists "", (String c s). auto.
Qed.

Lemma greedy_star_here (s : string) :
  is_Some (k s) -> is_Some (greedy_star p s k).
Proof.
  intros Hk. destruct s as [|c s]; simpl; [exact Hk|].
  destruct (p c); [|exact Hk].
  destruct (greedy_star p s k); [eauto|exact Hk].
Qed.

Lemma greedy_star_complete (u rest : string) :
  all_chars p u = true -> is_Some (k rest) ->
  is_Some (greedy_star p (u +:+ rest) k).
Proof.
  induction u as [|c u IH]; simpl; intros Hall Hk.
  - now apply greedy_star_here.
  - apply andb_true_iff in Hall. destruct Hall as [Hp Hall]. rewrite Hp.
    destruct (IH Hall Hk) as [r Hr]. rewrite Hr. eauto.
Qed.

Lemma greedy_plus_sound (s : string) (r : R) :
  greedy_plus p s k = Some r ->
  exists u rest, s = u +:+ rest /\ u <> "" /\ all_chars p u = true /\
                 k rest = Some r.
Proof.
  unfold greedy_plus. destruct s as [|c s]; [discriminate|].
  destruct (p c) eqn:Hp; [|discriminate]. intros H.
  apply greedy_star_sound in H. destruct H as (u & rest & -> & Hall & Hk).
  exists (String c u), rest. simpl. rewrite Hp, Hall.
  repeat split; auto; discriminate.
Qed.

Lemma greedy_plus_complete (u rest : string) :
  u <> "" -> all_chars p u = true -> is_Some (k rest) ->
  is_Some (greedy_plus p (u +:+ rest) k).
Proof.
  intros Hne Hall Hk. destruct u as [|c u]; [contradiction|].
  simpl in *. apply andb_true_iff in Hall. destruct Hall as [Hp Hall].
  rewrite Hp. now apply greedy_star_complete.
Qed.

Lemma lazy_star_sound (s : string) (r : R) :
  lazy_star p s k = Some r ->
  exists u rest, s = u +:+ rest /\ all_chars p u = true /\ k rest = Some r.
Proof.
  induction s as [|c s IH]; simpl; intros H.
  - destruct (k "") eqn:Hk; [|discriminate]. inversion H; subst.
    exists "", "". auto.
  - destruct (k (String c s)) eqn:Hk.
    + inversion H; subst. exists "", (String c s). auto.
    + destruct (p c) eqn:Hp; [|discriminate].
      destruct (IH H) as (u & rest & -> & Hall & Hk').
      exists (String c u), rest. simpl. rewrite Hp, Hall. auto.
Qed.

Lemma lazy_star_complete (u rest : string) :
  all_chars p u = true -> is_Some (k rest) ->
  is_Some (lazy_star p (u +:+ rest) k).
Proof.
  induction u as [|c u IH]; simpl; intros Hall Hk.
  - destruct rest; simpl; destruct Hk as [r ->]; eauto.
  - destruct (k (String c (u +:+ rest))); [eauto|].
    apply andb_true_iff in Hall. destruct Hall as [Hp Hall]. rewrite Hp.
    now apply IH.
Qed.

End Quantifiers.

(** Soundness: a result of the matcher comes from a text of the language
    at the head of the input, with the continuation run on what is left. *)
Lemma rmatch_sound (r : regex) :
  forall s caps k res,
    rmatch r s caps k = Some res ->
    exists u rest caps',
      s = u +:+ rest /\ Matches r u caps caps' /\ k rest caps' = Some res.
Proof.
  induction r as [l|n p|p|p|r1 IH1 r2 IH2|r1 IH1 r2 IH2|i r IH];
    intros s caps k res H; simpl in H.
  - destruct (match_lit l s) as [rest|] eqn:Hl; [|discriminate].
    apply match_lit_spec in Hl. exists l, rest, caps.
    repeat split; auto. constructor.
  - destruct (match_rep n p s) as [rest|] eqn:Hr; [|discriminate].
    apply match_rep_spec in Hr. destruct Hr as (u & -> & Hlen & Hall).
    exists u, rest, caps. repeat split; auto. now constructor.
  - apply greedy_plus_sound in H. destruct H as (u & rest & -> & Hne & Hall & Hk).
    exists u, rest, caps. repeat split; auto. now constructor.
  - apply lazy_star_sound in H. destruct H as (u & rest & -> & Hall & Hk).
    exists u, rest, caps. repeat split; auto. now constructor.
  - destruct (rmatch r1 s caps k) as [m|] eqn:H1.
    + inversion H; subst. destruct (IH1 _ _ _ _ H1) as (u & rest & caps' & -> & Hm & Hk).
      exists u, rest, caps'. repeat split; auto. now apply M_AltL.
    + destruct (IH2 _ _ _ _ H) as (u & rest & caps' & -> & Hm & Hk).
      exists u, rest, caps'. repeat split; auto. now apply M_AltR.
  - destruct (IH1 _ _ _ _ H) as (u1 & rest1 & caps1 & -> & Hm1 & Hk1).
    destruct (IH2 _ _ _ _ Hk1) as (u2 & rest & caps2 & -> & Hm2 & Hk).
    exists (u1 +:+ u2), rest, caps2. rewrite append_assoc.
    repeat split; auto. now apply (M_Seq r1 r2 u1 u2 caps caps1 caps2).
  - destruct (IH _ _ _ _ H) as (u & rest & caps' & -> & Hm & Hk).
    rewrite consumed_app in Hk.
    exists u, rest, (<[i := u]> caps'). repeat split; auto. now constructor.
Qed.

(** Completeness: a text of the language at the head of the input is
    found, if not an earlier choice, whenever the continuation accepts what
    is left. *)
Lemma rmatch_complete (r : regex) (u : string) (c c' : captures) :
  Matches r u c c' ->
  forall rest caps k,
    (forall caps', is_Some (k rest caps')) ->
    is_Some (rmatch r (u +:+ rest) caps k).
Proof.
  induction 1 as [l c|n p u c Hlen Hall|p u c Hne Hall|p u c Hall
                 |r1 r2 u c c' Hm IH|r1 r2 u c c' Hm IH
                 |r1 r2 u1 u2 c c' c'' Hm1 IH1 Hm2 IH2|i r u c c' Hm IH];
    intros rest caps k Hk; simpl.
  - assert (Hl : match_lit l (l +:+ rest) = Some rest) by now apply match_lit_spec.
    rewrite Hl. apply Hk.
  - assert (Hr : match_rep n p (u +:+ rest) = Some rest).
    { apply match_rep_spec. exists u. auto. }
    rewrite Hr. apply Hk.
  - apply greedy_plus_complete; auto.
  - apply lazy_star_complete; auto.
  - destruct (IH rest caps k Hk) as [m Hm']. rewrite Hm'. eauto.
  - destruct (rmatch r1 (u +:+ rest) caps k); [eauto|]. now apply IH.
  - rewrite append_assoc. apply IH1. intros caps'. now apply IH2.
  - apply IH. intros caps'. apply Hk.
Qed.

(** One step of the matcher on a sequence. *)
Lemma rmatch_Seq r1 r2 s caps k :
  rmatch (Seq r1 r2) s caps k =
  rmatch r1 s caps (fun rest caps' => rmatch r2 rest caps' k).
Proof. reflexivity. Qed.

Lemma search_sound (r : regex) (s : string) (m : captures) :
  search r s = Some m ->
  exists pre u post, s = pre +:+ u +:+ post /\ Matches r u ∅ m.
Proof.
  induction s as [|c s IH]; simpl; intros H.
  - destruct (match_here r "") as [m'|] eqn:Hm; [|discriminate].
    inversion H; subst. apply rmatch_sound in Hm.
    destruct Hm as (u & rest & caps' & Hs & Hm & Hk). inversion Hk; subst.
    exists "", u, rest. auto.
  - destruct (match_here r (String c s)) as [m'|] eqn:Hm.
    + inversion H; subst. apply rmatch_sound in Hm.
      destruct Hm as (u & rest & caps' & Hs & Hm & Hk). inversion Hk; subst.
      exists "", u, rest. auto.
    + destruct (IH H) as (pre & u & post & -> & Hm').
      exists (String c pre), u, post. auto.
Qed.

Lemma search_complete (r : regex) (pre u post : string) (c c' : captures) :
  Matches r u c c' -> is_Some (search r (pre +:+ u +:+ post)).
Proof.
  intros Hm.
  assert (Hhere : is_Some (match_here r (u +:+ post))).
  { unfold match_here. apply (rmatch_complete r u c c' Hm). eauto. }
  induction pre as [|a pre IH].
  - simpl. destruct (u +:+ post); simpl; destruct Hhere as [m ->]; eauto.
  - simpl. destruct (match_here r (String a (pre +:+ u +:+ post))); [eauto|].
    exact IH.
Qed.

(** *** Which match is found *)

(** The first character of [s], if any, is not in the class [p]. *)
Definition no_leading (p : ascii -> bool) (s : string) : bool :=
  match s with
  | EmptyString => true
  | String c _ => negb (p c)
  end.

Lemma append_split (a b c d : string) :
  a +:+ b = c +:+ d -> (String.length a <= String.length c)%nat ->
  exists x, c = a +:+ x /\ b = x +:+ d.
Proof.
  revert c. induction a as [|ch a IH]; intros c H Hlen; simpl in *.
  - exists c. auto.
  - destruct c as [|ch' c]; simpl in *; [lia|].
    inversion H; subst.
    destruct (IH c) as (x & -> & ->); [assumption|lia|].
    exists x. auto.
Qed.

Lemma append_inv_length (a b c d : string) :
  a +:+ b = c +:+ d -> String.length a = String.length c -> a = c /\ b = d.
Proof.
  intros H Hlen. destruct (append_split a b c d H) as (x & -> & ->); [lia|].
  rewrite length_append in Hlen.
  destruct x; simpl in Hlen; [|lia]. now rewrite append_nil_r.
Qed.

(** A run of a class that ends where the class ends is determined. *)
Lemma run_unique (p : ascii -> bool) (a a' r r' : string) :
  all_chars p a = true -> all_chars p a' = true ->
  no_leading p r = true -> no_leading p r' = true ->
  a +:+ r = a' +:+ r' -> a = a' /\ r = r'.
Proof.
  revert a'. induction a as [|c a IH]; intros [|c' a'] Ha Ha' Hr Hr' H;
    simpl in *.
  - auto.
  - subst r. simpl in Hr. apply andb_true_iff in Ha'. destruct Ha' as [Hc _].
    rewrite Hc in Hr. discriminate.
  - subst r'. simpl in Hr'. apply andb_true_iff in Ha. destruct Ha as [Hc _].
    rewrite Hc in Hr'. discriminate.
  - inversion H; subst.
    apply andb_true_iff in Ha, Ha'. destruct Ha as [_ Ha], Ha' as [_ Ha'].
    destruct (IH a' Ha Ha' Hr Hr') as [-> ->]; auto.
Qed.

(** [re.search] stops at the first position with a match. *)
Lemma search_first (r : regex) (s : string) (m : captures) :
  search r s = Some m ->
  exists pre rest,
    s = pre +:+ rest /\ match_here r rest = Some m /\
    forall pre1 x, pre = pre1 +:+ x -> x <> "" ->
      match_here r (x +:+ rest) = None.
Proof.
  induction s as [|c s IH]; simpl; intros H.
  - destruct (match_here r "") as [m'|] eqn:Hm; [|discriminate].
    exists "", "". split; [reflexivity|]. split; [congruence|].
    intros [|c1 pre1] x Hx Hne; simpl in Hx; congruence.
  - destruct (match_here r (String c s)) as [m'|] eqn:Hm.
    + exists "", (String c s). split; [reflexivity|]. split; [congruence|].
      intros [|c1 pre1] x Hx Hne; simpl in Hx; congruence.
    + destruct (IH H) as (pre & rest & -> & Hrest & Hearlier).
      exists (String c pre), rest. split; [reflexivity|]. split; [exact Hrest|].
      intros [|c1 pre1] x Hx Hne; simpl in Hx.
      * subst x. exact Hm.
      * inversion Hx; subst. now apply (Hearlier pre1 x).
Qed.

Section QuantifierChoice.
Context {R : Type} (p : ascii -> bool) (k : string -> option R).

(** A lazy repetition stops at the first length what follows accepts. *)
Lemma lazy_star_first (s : string) (r : R) :
  lazy_star p s k = Some r ->
  exists u rest,
    s = u +:+ rest /\ all_chars p u = true /\ k rest = Some r /\
    forall u1 x, u = u1 +:+ x -> x <> "" -> k (x +:+ rest) = None.
Proof.
  induction s as [|c s IH]; simpl; intros H.
  - destruct (k "") eqn:Hk; [|discriminate]. inversion H; subst.
    exists "", "". do 3 (split; [auto|]).
    intros [|c1 u1] x Hx Hne; simpl in Hx; congruence.
  - destruct (k (String c s)) eqn:Hk.
    + inversion H; subst. exists "", (String c s). do 3 (split; [auto|]).
      intros [|c1 u1] x Hx Hne; simpl in Hx; congruence.
    + destruct (p c) eqn:Hp; [|discriminate].
      destruct (IH H) as (u & rest & -> & Hall & Hk' & Hshorter).
      exists (String c u), rest. simpl. rewrite Hp, Hall.
      do 3 (split; [auto|]).
      intros [|c1 u1] x Hx Hne; simpl in Hx.
      * subst x. exact Hk.
      * inversion Hx; subst. now apply (Hshorter u1 x).
Qed.

Hypothesis k_accepts : forall rest, is_Some (k rest).

(** A greedy repetition followed by nothing that can fail takes the whole
    run. *)
Lemma greedy_star_max (s : string) (r : R) :
  greedy_star p s k = Some r ->
  exists u rest,
    s = u +:+ rest /\ all_chars p u = true /\ no_leading p rest = true /\
    k rest = Some r.
Proof.
  induction s as [|c s IH]; simpl; intros H.
  - exists "", "". auto.
  - destruct (p c) eqn:Hp.
    + destruct (greedy_star_here p k s (k_accepts s)) as [r' Hr'].
      rewrite Hr' in H. inversion H; subst.
      destruct (IH Hr') as (u & rest & -> & Hall & Hno & Hk).
      exists (String c u), rest. simpl. rewrite Hp, Hall. auto.
    + exists "", (String c s). simpl. rewrite Hp. auto.
Qed.

Lemma greedy_plus_max (s : string) (r : R) :
  greedy_plus p s k = Some r ->
  exists u rest,
    s = u +:+ rest /\ u <> "" /\ all_chars p u = true /\
    no_leading p rest = true /\ k rest = Some r.
Proof.
  unfold greedy_plus. destruct s as [|c s]; [discriminate|].
  destruct (p c) eqn:Hp; [|discriminate]. intros H.
  apply greedy_star_max in H. destruct H as (u & rest & -> & Hall & Hno & Hk).
  exists (String c u), rest. simpl. rewrite Hp, Hall.
  repeat split; auto; discriminate.
Qed.

End QuantifierChoice.


End RegexFacts.

(** ** Filename metadata parser *)

Import RegexFacts.

Definition semesters : list string := ["Spring"; "Fall"; "Summer"].

(** One or more characters of a class. *)
Definition some_of (p : ascii -> bool) (s : string) : Prop :=
  s <> "" /\ all_chars p s = true.

(** An occurrence of the pattern in a file name, cut into its parts: what
    precedes it, the semester name, white space, the year, the text up to
    the course code, [CMSI], white space, the course number, white space,
    the section, and what follows. *)
Record occurrence : Type := Occurrence {
  o_pre : string;
  o_semester : string;
  o_ws1 : string;
  o_year : string;
  o_mid : string;
  o_ws2 : string;
  o_num : string;
  o_ws3 : string;
  o_section : string;
  o_post : string
}.

Definition o_course (o : occurrence) : string :=
  "CMSI" +:+ o_ws2 o +:+ o_num o.

(** The course code, the white space and the section. *)
Definition o_tail (o : occurrence) : string :=
  o_course o +:+ o_ws3 o +:+ o_section o.

(** The matched text. *)
Definition o_text (o : occurrence) : string :=
  o_semester o +:+ o_ws1 o +:+ o_year o +:+ o_mid o +:+ o_tail o.

(** The parts have the shapes the pattern asks for: a semester name, a year
    of four digits, no line feed before the course code, non-empty white
    space and digits elsewhere. *)
Definition well_formed (o : occurrence) : Prop :=
  In (o_semester o) semesters /\
  some_of Regex.space (o_ws1 o) /\
  String.length (o_year o) = 4%nat /\ all_chars Regex.digit (o_year o) = true /\
  all_chars Regex.dot (o_mid o) = true /\
  some_of Regex.space (o_ws2 o) /\ some_of Regex.digit (o_num o) /\
  some_of Regex.space (o_ws3 o) /\ some_of Regex.digit (o_section o).

Definition OccursIn (filename : string) (o : occurrence) : Prop :=
  filename = o_pre o +:+ o_text o +:+ o_post o /\ well_formed o.

(** The occurrence [re.search] reports: none starts before it, none that
    starts with it reaches a course code sooner, and its section takes every
    digit there is. *)
Definition FirstIn (filename : string) (o : occurrence) : Prop :=
  OccursIn filename o /\
  no_leading Regex.digit (o_post o) = true /\
  forall o', OccursIn filename o' ->
    (String.length (o_pre o) <= String.length (o_pre o'))%nat /\
    (o_pre o' = o_pre o ->
     (String.length (o_mid o) <= String.length (o_mid o'))%nat).

Definition o_captures (o : occurrence) : Regex.captures :=
  <[4%nat := o_section o]>
    (<[3%nat := o_course o]>
       (<[2%nat := o_year o]> (<[1%nat := o_semester o]> ∅))).

(** The pattern from the course code on. *)
Definition tail_pattern : Regex.regex :=
  Regex.Seq
    (Regex.Group 3 (Regex.Seq (Regex.Lit "CMSI")
                      (Regex.Seq (Regex.Plus Regex.space) (Regex.Plus Regex.digit))))
    (Regex.Seq (Regex.Plus Regex.space) (Regex.Group 4 (Regex.Plus Regex.digit))).

Lemma course_pattern_unfold :
  course_pattern =
  Regex.Seq (Regex.Group 1 (Regex.Alt (Regex.Lit "Spring")
                              (Regex.Alt (Regex.Lit "Fall") (Regex.Lit "Summer"))))
    (Regex.Seq (Regex.Plus Regex.space)
       (Regex.Seq (Regex.Group 2 (Regex.Rep 4 Regex.digit))
          (Regex.Seq (Regex.LazyStar Regex.dot) tail_pattern))).
Proof. reflexivity. Qed.

Ltac invert_matches :=
  repeat match goal with
    | H : Matches (Regex.Seq _ _) _ _ _ |- _ => inversion H; subst; clear H
    | H : Matches (Regex.Group _ _) _ _ _ |- _ => inversion H; subst; clear H
    | H : Matches (Regex.Alt _ _) _ _ _ |- _ => inversion H; subst; clear H
    | H : Matches (Regex.Lit _) _ _ _ |- _ => inversion H; subst; clear H
    | H : Matches (Regex.Plus _) _ _ _ |- _ => inversion H; subst; clear H
    | H : Matches (Regex.Rep _ _) _ _ _ |- _ => inversion H; subst; clear H
    | H : Matches (Regex.LazyStar _) _ _ _ |- _ => inversion H; subst; clear H
    end.

Lemma tail_pattern_intro (o : occurrence) (c : Regex.captures) :
  well_formed o ->
  Matches tail_pattern (o_tail o) c
    (<[4%nat := o_section o]> (<[3%nat := o_course o]> c)).
Proof.
  intros (_ & _ & _ & _ & _ & [Hw2 Hw2'] & [Hn Hn'] & [Hw3 Hw3'] & [Hs Hs']).
  unfold tail_pattern, o_tail, o_course.
  eapply M_Seq.
  { apply M_Group. eapply M_Seq; [apply M_Lit|].
    eapply M_Seq; now apply M_Plus. }
  eapply M_Seq; [now apply M_Plus|].
  apply M_Group. now apply M_Plus.
Qed.

Lemma course_pattern_intro (o : occurrence) :
  well_formed o -> Matches course_pattern (o_text o) ∅ (o_captures o).
Proof.
  intros Hwf. assert (Htail := tail_pattern_intro o).
  destruct Hwf as (Hsem & [Hw1 Hw1'] & Hy & Hy' & Hmid & Hrest).
  rewrite course_pattern_unfold. unfold o_text, o_captures.
  eapply M_Seq.
  { apply M_Group. unfold semesters in Hsem. simpl in Hsem.
    destruct Hsem as [<-|[<-|[<-|[]]]].
    - apply M_AltL. constructor.
    - apply M_AltR, M_AltL. constructor.
    - apply M_AltR, M_AltR. constructor. }
  eapply M_Seq; [now apply M_Plus|].
  eapply M_Seq; [apply M_Group; now apply M_Rep|].
  eapply M_Seq; [now apply M_LazyStar|].
  apply Htail. unfold well_formed, some_of. tauto.
Qed.

Lemma o_captures_groups (o : occurrence) :
  Regex.group (o_captures o) 1 = o_semester o /\
  Regex.group (o_captures o) 2 = o_year o /\
  Regex.group (o_captures o) 3 = o_course o /\
  Regex.group (o_captures o) 4 = o_section o.
Proof.
  unfold Regex.group, o_captures.
  repeat split; repeat (rewrite lookup_insert_ne by lia);
    now rewrite lookup_insert_eq.
Qed.

Lemma Matches_Plus_inv p u (c c' : Regex.captures) :
  Matches (Regex.Plus p) u c c' -> c' = c /\ some_of p u.
Proof. intros H. inversion H; subst. unfold some_of. auto. Qed.

Lemma Matches_semester_inv u (c c' : Regex.captures) :
  Matches (Regex.Group 1 (Regex.Alt (Regex.Lit "Spring")
                            (Regex.Alt (Regex.Lit "Fall") (Regex.Lit "Summer"))))
    u c c' ->
  In u semesters /\ c' = <[1%nat := u]> c.
Proof. intros H. invert_matches; unfold semesters; simpl; auto. Qed.

Lemma Matches_year_inv u (c c' : Regex.captures) :
  Matches (Regex.Group 2 (Regex.Rep 4 Regex.digit)) u c c' ->
  String.length u = 4%nat /\ all_chars Regex.digit u = true /\
  c' = <[2%nat := u]> c.
Proof. intros H. invert_matches. auto. Qed.

Lemma Matches_course_inv u (c c' : Regex.captures) :
  Matches (Regex.Group 3 (Regex.Seq (Regex.Lit "CMSI")
             (Regex.Seq (Regex.Plus Regex.space) (Regex.Plus Regex.digit))))
    u c c' ->
  exists ws2 num,
    u = "CMSI" +:+ ws2 +:+ num /\
    some_of Regex.space ws2 /\ some_of Regex.digit num /\
    c' = <[3%nat := u]> c.
Proof.
  intros H. invert_matches.
  match goal with
  | |- context [("CMSI" +:+ ?a +:+ ?b)] => exists a, b
  end.
  unfold some_of. auto.
Qed.

(** A match at the head of the input, cut into its parts: the text up to
    the course code is the shortest that lets the rest match, and the
    section is not followed by a digit. *)
Lemma match_here_course_pattern (s : string) (m : Regex.captures) :
  Regex.match_here course_pattern s = Some m ->
  exists o,
    o_pre o = "" /\ s = o_text o +:+ o_post o /\ well_formed o /\
    m = o_captures o /\
    no_leading Regex.digit (o_post o) = true /\
    forall mid1 x, o_mid o = mid1 +:+ x -> x <> "" ->
      forall u c c' post,
        Matches tail_pattern u c c' ->
        x +:+ o_tail o +:+ o_post o <> u +:+ post.
Proof.
  unfold Regex.match_here. rewrite course_pattern_unfold. intros H.
  (* the semester, white space, the year *)
  rewrite rmatch_Seq in H. apply rmatch_sound in H.
  destruct H as (sem & r1 & c1 & -> & Hsem & H).
  apply Matches_semester_inv in Hsem. destruct Hsem as [Hsem ->].
  rewrite rmatch_Seq in H. apply rmatch_sound in H.
  destruct H as (ws1 & r2 & c2 & -> & Hws1 & H).
  apply Matches_Plus_inv in Hws1. destruct Hws1 as [-> Hws1].
  rewrite rmatch_Seq in H. apply rmatch_sound in H.
  destruct H as (year & r3 & c3 & -> & Hyear & H).
  apply Matches_year_inv in Hyear. destruct Hyear as (Hy & Hy' & ->).
  (* anything, lazily *)
  rewrite rmatch_Seq in H. cbn [Regex.rmatch] in H.
  apply lazy_star_first in H.
  destruct H as (mid & r4 & -> & Hmid & H & Hshortest).
  (* the course code, white space *)
  unfold tail_pattern in H.
  rewrite rmatch_Seq in H. apply rmatch_sound in H.
  destruct H as (course & r5 & c5 & -> & Hcourse & H).
  apply Matches_course_inv in Hcourse.
  destruct Hcourse as (ws2 & num & -> & Hws2 & Hnum & ->).
  rewrite rmatch_Seq in H. apply rmatch_sound in H.
  destruct H as (ws3 & r6 & c6 & -> & Hws3 & H).
  apply Matches_Plus_inv in Hws3. destruct Hws3 as [-> Hws3].
  (* the section, greedily to the end of the digits *)
  cbn [Regex.rmatch] in H. apply greedy_plus_max in H; [|eauto].
  destruct H as (section & post & -> & Hs & Hs' & Hpost & H).
  rewrite consumed_app in H. inversion H; subst m; clear H.
  exists (Occurrence "" sem ws1 year mid ws2 num ws3 section post).
  unfold o_text, o_tail, o_course, o_captures, well_formed.
  cbn [o_pre o_post o_mid o_semester o_ws1 o_year o_ws2 o_num o_ws3 o_section].
  split; [reflexivity|].
  split; [now rewrite !append_assoc|].
  split; [unfold some_of in *; tauto|].
  split; [reflexivity|].
  split; [exact Hpost|].
  intros mid1 x Hx Hne u c c' post' Hm Heq.
  specialize (Hshortest mid1 x Hx Hne).
  assert (Hsome : is_Some
            (Regex.rmatch tail_pattern (u +:+ post')
               (<[2%nat := year]> (<[1%nat := sem]> ∅))
               (fun _ caps => Some caps)))
    by (apply (rmatch_complete tail_pattern u c c' Hm); eauto).
  rewrite <- Heq in Hsome.
  rewrite !append_assoc in Hsome. rewrite !append_assoc in Hshortest.
  rewrite Hshortest in Hsome. destruct Hsome as [? Hsome]. discriminate.
Qed.

Lemma digit_not_space (c : ascii) :
  Regex.digit c = true -> Regex.space c = false.
Proof.
  destruct c as [[] [] [] [] [] [] [] []]; vm_compute; congruence.
Qed.

Lemma semester_prefix_unique (sem sem' a b : string) :
  In sem semesters -> In sem' semesters ->
  sem +:+ a = sem' +:+ b -> sem = sem' /\ a = b.
Proof.
  unfold semesters. simpl.
  intros [<-|[<-|[<-|[]]]] [<-|[<-|[<-|[]]]] H; simpl in H;
    first [discriminate H | inversion H; auto].
Qed.

(** Two occurrences that start together agree up to the year. *)
Lemma head_unique (o o' : occurrence) :
  well_formed o -> well_formed o' ->
  o_text o +:+ o_post o = o_text o' +:+ o_post o' ->
  o_semester o = o_semester o' /\ o_ws1 o = o_ws1 o' /\ o_year o = o_year o' /\
  o_mid o +:+ o_tail o +:+ o_post o = o_mid o' +:+ o_tail o' +:+ o_post o'.
Proof.
  intros (Hsem & [_ Hw1] & Hy & Hy' & _) (Hsem' & [_ Hw1'] & Hz & Hz' & _) H.
  unfold o_text in H. rewrite !append_assoc in H.
  apply semester_prefix_unique in H; [|assumption..]. destruct H as [Es H].
  assert (Hlead : forall year rest, String.length year = 4%nat ->
            all_chars Regex.digit year = true ->
            no_leading Regex.space (year +:+ rest) = true).
  { intros [|d y] rest Hlen Hall; [discriminate|]. simpl in *.
    apply andb_true_iff in Hall. destruct Hall as [Hd _].
    now rewrite (digit_not_space d Hd). }
  apply (run_unique Regex.space) in H; auto. destruct H as [Ew H].
  apply append_inv_length in H; [|congruence]. destruct H as [Ey H].
  auto.
Qed.

(** What [re.search] answers for the pattern. *)
Lemma search_course_pattern (filename : string) :
  match Regex.search course_pattern filename with
  | Some m => exists o, FirstIn filename o /\ m = o_captures o
  | None => forall o, ~ OccursIn filename o
  end.
Proof.
  assert (Hcomplete : forall o, well_formed o ->
            is_Some (Regex.match_here course_pattern (o_text o +:+ o_post o))).
  { intros o Hwf. unfold Regex.match_here.
    apply (rmatch_complete _ _ _ _ (course_pattern_intro o Hwf)). eauto. }
  destruct (Regex.search course_pattern filename) as [m|] eqn:Hsearch.
  - apply search_first in Hsearch.
    destruct Hsearch as (pre & rest & -> & Hhere & Hearlier).
    apply match_here_course_pattern in Hhere.
    destruct Hhere as ([p0 sem ws1 year mid ws2 num ws3 section post]
                       & Hp0 & -> & Hwf & -> & Hpost & Hshortest).
    cbn [o_pre o_post o_mid] in *. subst p0.
    set (o0 := Occurrence "" sem ws1 year mid ws2 num ws3 section post) in *.
    exists (Occurrence pre sem ws1 year mid ws2 num ws3 section post).
    split; [|reflexivity].
    split; [split; [reflexivity|exact Hwf]|].
    split; [exact Hpost|].
    intros o' [Heq Hwf']. cbn [o_pre o_mid] in *. split.
    + destruct (le_lt_dec (String.length pre) (String.length (o_pre o')))
        as [Hle|Hlt]; [exact Hle|exfalso].
      symmetry in Heq. apply append_split in Heq; [|lia].
      destruct Heq as (x & -> & Hx).
      assert (Hne : x <> "").
      { intros ->. rewrite append_nil_r in Hlt. exact (Nat.lt_irrefl _ Hlt). }
      specialize (Hearlier (o_pre o') x eq_refl Hne).
      change (o_text o0 +:+ post) with (o_text o0 +:+ o_post o0) in *.
      rewrite <- Hx in Hearlier.
      destruct (Hcomplete o' Hwf') as [m' Hm']. congruence.
    + intros Hpre. rewrite Hpre in Heq. apply String.app_inj in Heq.
      change (o_text o0 +:+ post) with (o_text o0 +:+ o_post o0) in Heq.
      apply head_unique in Heq; [|assumption..].
      destruct Heq as (_ & _ & _ & Heq). subst o0. cbn [o_mid o_post] in Heq.
      destruct (le_lt_dec (String.length mid) (String.length (o_mid o')))
        as [Hle|Hlt]; [exact Hle|exfalso].
      symmetry in Heq. apply append_split in Heq; [|lia].
      destruct Heq as (x & Hmid & Hx).
      assert (Hne : x <> "").
      { intros ->. rewrite Hmid, append_nil_r in Hlt. exact (Nat.lt_irrefl _ Hlt). }
      apply (Hshortest (o_mid o') x Hmid Hne (o_tail o') ∅ _ (o_post o')
               (tail_pattern_intro o' ∅ Hwf')).
      symmetry. exact Hx.
  - intros o [-> Hwf].
    destruct (search_complete course_pattern (o_pre o) (o_text o) (o_post o)
                _ _ (course_pattern_intro o Hwf)) as [m Hm].
    congruence.
Qed.

(** C8. When the file name holds the pattern, the parser returns the
    semester and the year joined by one space, the course code and the
    section of the occurrence that [re.search] reports: the leftmost one,
    with the shortest text before the course code and the longest section;
    when the file name does not hold the pattern, the parser returns the
    sentinel triple; it returns in either case.  A name with [Fall 2025],
    other text, then [CMSI 186 02] gives [Fall 2025], [CMSI 186], [02]. *)
Theorem parse_course_info_spec (filename : string) :
  ((exists o, OccursIn filename o) ->
   exists o,
     FirstIn filename o /\
     parse_course_info filename =
       (o_semester o +:+ " " +:+ o_year o, o_course o, o_section o)) /\
  ((forall o, ~ OccursIn filename o) ->
   parse_course_info filename = unknown_course) /\
  parse_course_info "Coleman Jared Fall 2025 Programming Lab CMSI 186 02.csv"
    = ("Fall 2025", "CMSI 186", "02") /\
  parse_course_info "Coleman Jared evaluations.csv" = unknown_course.
Proof.
  assert (Hsearch := search_course_pattern filename).
  unfold parse_course_info.
  split; [|split; [|split; vm_compute; reflexivity]].
  - intros (o0 & Hocc).
    destruct (Regex.search course_pattern filename) as [m|].
    + destruct Hsearch as (o & Hfirst & ->).
      exists o. split; [exact Hfirst|].
      destruct (o_captures_groups o) as (-> & -> & -> & ->).
      reflexivity.
    + exfalso. exact (Hsearch o0 Hocc).
  - intros Hnone.
    destruct (Regex.search course_pattern filename) as [m|]; [|reflexivity].
    destruct Hsearch as (o & [Hocc _] & _).
    exfalso. exact (Hnone o Hocc).
Qed.

(** The leftmost occurrence wins over a later one, white space of any
    length separates the parts, and digits glued to the course number leave
    no section. *)
Example parse_course_info_choices :
  parse_course_info "Spring  2024 CMSI 10 5 Fall 2025 CMSI 186 02" =
    ("Spring 2024", "CMSI 10", "5") /\
  parse_course_info "Fall 2025 CMSI 18602.csv" = unknown_course.
Proof. vm_compute. split; reflexivity. Qed.

(** * The report blocks of [main]

    What [main] prints after the aggregation: the numbered feedback
    examples, the numbered improvement suggestions and the typesetting
    fragment.  Each block is embedded as the sequence of items it prints,
    without the formatting of the lines. *)

(** [s[:k]] on a string *)
Definition str_take (k : nat) (s : string) : string := substring 0 k s.

(** [if len(s) > limit: s = s[:limit] + "..."] *)
Definition truncate (limit : nat) (s : string) : string :=
  if Str.len s >? Z.of_nat limit then str_take limit s +:+ "..." else s.

(** [enumerate(l, start)] *)
Fixpoint enumerate {A : Type} (l : list A) (start : Z) : list (Z * A) :=
  match l with
  | [] => []
  | x :: l' => (start, x) :: enumerate l' (start + 1)
  end.

(** [good_feedback = filter_good_feedback(all_beneficial)] *)
Definition good_feedback (all_beneficial : list string) : list string :=
  filter_good_feedback all_beneficial default_min_length.

(** The loop over [enumerate(good_feedback[:10], 1)]: the number and the
    text of each example printed. *)
Definition feedback_examples (good : list string) : list (Z * string) :=
  List.map (fun '(i, comment) => (i, truncate 500 comment))
    (enumerate (slice_first 10 good) 1).

(** The loop over [enumerate(all_improvement[:5], 1)]: the number and the
    text of each suggestion printed. *)
Definition improvement_sample (all_improvement : list string)
    : list (Z * string) :=
  flat_map (fun '(i, comment) =>
              if Str.truthy comment && (Str.len comment >? 10)
              then [(i, truncate 300 comment)]
              else [])
    (enumerate (slice_first 5 all_improvement) 1).

(** [s.replace(old, new)] for an [old] of one character *)
Fixpoint replace_char (old : ascii) (new : string) (s : string) : string :=
  match s with
  | EmptyString => EmptyString
  | String c s' =>
      if Ascii.eqb c old then new +:+ replace_char old new s'
      else String c (replace_char old new s')
  end.

(** The two statements that clean a comment up for LaTeX. *)
Definition latex_escape (comment : string) : string :=
  let clean :=
    replace_char "$" "\$" (replace_char "%" "\%" (replace_char "&" "\&" comment)) in
  replace_char "_" "\_" (replace_char "#" "\#" clean).

(** The text of one [\item] of the selected feedback. *)
Definition latex_item (comment : string) : string :=
  truncate 200 (latex_escape comment).

(** The loop over [good_feedback[:3]]. *)
Definition latex_feedback (good : list string) : list string :=
  List.map latex_item (slice_first 3 good).

(** [[k for k, v in QUESTION_LABELS.items() if v == label][0]]; [None] is
    the [IndexError] of an empty list. *)
Definition full_text (label : string) : option string :=
  head (flat_map (fun '(k, v) => if String.eqb v label then [k] else [])
          QUESTION_LABELS).

(** The loop over [sorted_ratings[:3]] of the LaTeX fragment: the question
    text, the mean and the deviation of each item. *)
Fixpoint latex_areas (top : list ranked_stat) : option (list (string * Q * StdDev)) :=
  match top with
  | [] => Some []
  | (mean, std, label, n) :: top' =>
      match full_text label with
      | None => None
      | Some text =>
          match latex_areas top' with
          | None => None
          | Some items => Some ((text, mean, std) :: items)
          end
      end
  end.

Definition latex_top_areas (sorted_ratings : list ranked_stat)
    : option (list (string * Q * StdDev)) :=
  latex_areas (slice_first 3 sorted_ratings).

(** * Further properties of the code *)

(** ** Feedback filter *)

Lemma keeps_threshold (m1 m2 : Z) (comment : string) :
  m1 <= m2 -> keeps m2 comment = true -> keeps m1 comment = true.
Proof.
  unfold keeps. intros Hm H. apply andb_true_iff in H. destruct H as [Hlen Hcnt].
  apply andb_true_iff. split; [|exact Hcnt].
  apply Z.geb_le. apply Z.geb_le in Hlen. lia.
Qed.

(** X1. Raising the threshold can only drop comments: what a higher
    [min_length] keeps is a subsequence of what a lower one keeps. *)
Theorem filter_good_feedback_monotone (comments : list string) (m1 m2 : Z) :
  m1 <= m2 ->
  sublist (filter_good_feedback comments m2) (filter_good_feedback comments m1).
Proof.
  intros Hm. rewrite !filter_good_feedback_filter.
  induction comments as [|c l IH]; simpl; [constructor|].
  destruct (keeps m2 c) eqn:H2.
  - rewrite (keeps_threshold m1 m2 c Hm H2). now constructor.
  - destruct (keeps m1 c); [now constructor|exact IH].
Qed.

Lemma filter_good_feedback_monotone_witness :
  50 <= 60 /\
  sublist
    (filter_good_feedback
       ["The labs were great and the office hours were helpful too."] 60)
    (filter_good_feedback
       ["The labs were great and the office hours were helpful too."] 50).
Proof.
  split; [lia|].
  apply (filter_good_feedback_monotone
           ["The labs were great and the office hours were helpful too."] 50 60).
  lia.
Defined.

Lemma List_filter_idem {A : Type} (f : A -> bool) (l : list A) :
  List.filter f (List.filter f l) = List.filter f l.
Proof.
  induction l as [|x l IH]; simpl; [reflexivity|].
  destruct (f x) eqn:Hx; simpl; [rewrite Hx, IH|]; auto.
Qed.

(** X2. Filtering comment by comment: the filter of a concatenation is the
    concatenation of the filters, so filtering the whole corpus and
    filtering each file's comments give the same comments; and filtering
    twice changes nothing. *)
Theorem filter_good_feedback_compose (a b : list string) (min_length : Z) :
  filter_good_feedback (a ++ b) min_length =
    filter_good_feedback a min_length ++ filter_good_feedback b min_length /\
  filter_good_feedback (filter_good_feedback a min_length) min_length =
    filter_good_feedback a min_length.
Proof.
  rewrite !filter_good_feedback_filter. split.
  - apply List.filter_app.
  - apply List_filter_idem.
Qed.

(** ** Comment extractor *)

Lemma lstrip_head (s : string) :
  Str.lstrip s = "" \/
  exists c t, Str.lstrip s = String c t /\ Str.is_space c = false.
Proof.
  induction s as [|c s IH]; simpl; [now left|].
  destruct (Str.is_space c) eqn:Hc; [exact IH|].
  right. exists c, s. auto.
Qed.

Lemma rstrip_idem (s : string) : Str.rstrip (Str.rstrip s) = Str.rstrip s.
Proof.
  induction s as [|c s IH]; simpl; [reflexivity|].
  destruct (Str.rstrip s) as [|d r] eqn:Hr.
  - destruct (Str.is_space c) eqn:Hc; simpl; [reflexivity|].
    now rewrite Hc.
  - simpl. simpl in IH. rewrite IH. reflexivity.
Qed.

Lemma rstrip_head (c : ascii) (t : string) :
  Str.is_space c = false -> exists t', Str.rstrip (String c t) = String c t'.
Proof.
  intros Hc. simpl. destruct (Str.rstrip t) as [|d r].
  - rewrite Hc. eauto.
  - eauto.
Qed.

(** Stripping leaves white space at neither end: stripping again, from the
    left, from the right or from both ends, changes nothing. *)
Lemma strip_fixed (s : string) :
  Str.lstrip (Str.strip s) = Str.strip s /\
  Str.rstrip (Str.strip s) = Str.strip s /\
  Str.strip (Str.strip s) = Str.strip s.
Proof.
  assert (Hl : Str.lstrip (Str.strip s) = Str.strip s).
  { unfold Str.strip. destruct (lstrip_head s) as [->|(c & t & -> & Hc)].
    - reflexivity.
    - destruct (rstrip_head c t Hc) as [t' ->]. simpl. now rewrite Hc. }
  assert (Hr : Str.rstrip (Str.strip s) = Str.strip s).
  { unfold Str.strip. apply rstrip_idem. }
  split; [exact Hl|]. split; [exact Hr|].
  unfold Str.strip at 1. now rewrite Hl, Hr.
Qed.

Lemma In_benefit_of item c : In c (benefit_of item) -> Str.strip c = c.
Proof.
  destruct item as [col value]. unfold benefit_of.
  destruct (_ && _); [|intros []].
  intros [<-|[]]. apply strip_fixed.
Qed.

Lemma In_improvement_of item c : In c (improvement_of item) -> Str.strip c = c.
Proof.
  destruct item as [col value]. unfold improvement_of.
  destruct (_ && _); [|intros []].
  intros [<-|[]]. apply strip_fixed.
Qed.

(** What the loop collects, as two comprehensions over the cells. *)
Lemma extract_comments_flat (responses : list row) :
  extract_comments responses =
  (flat_map (flat_map benefit_of) responses,
   flat_map (flat_map improvement_of) responses).
Proof.
  unfold extract_comments.
  assert (Hrow : forall resp st,
            fold_left extract_comments_item resp st =
            (fst st ++ flat_map benefit_of resp,
             snd st ++ flat_map improvement_of resp)).
  { intros resp st. apply injective_projections; simpl.
    - apply (fold_left_obs fst). intros s x.
      now rewrite extract_comments_item_obs.
    - apply (fold_left_obs snd). intros s x.
      now rewrite extract_comments_item_obs. }
  apply injective_projections; simpl.
  - rewrite (fold_left_obs fst _ (flat_map benefit_of)); [reflexivity|].
    intros s x. now rewrite Hrow.
  - rewrite (fold_left_obs snd _ (flat_map improvement_of)); [reflexivity|].
    intros s x. now rewrite Hrow.
Qed.

(** X3. Every comment the extractor collects, in either sequence, has
    white space at neither end: stripping it again gives it back. *)
Theorem extract_comments_stripped (responses : list row) :
  Forall (fun c => Str.strip c = c) (fst (extract_comments responses)) /\
  Forall (fun c => Str.strip c = c) (snd (extract_comments responses)).
Proof.
  rewrite extract_comments_flat. cbn [fst snd].
  split; apply Forall_forall; intros c Hc; apply list_elem_of_In in Hc;
    apply in_flat_map in Hc; destruct Hc as (resp & _ & Hc);
    apply in_flat_map in Hc; destruct Hc as (item & _ & Hc).
  - now apply (In_benefit_of item).
  - now apply (In_improvement_of item).
Qed.


(** ** Extraction and aggregation compose *)

Lemma flat_map_concat {A B : Type} (f : A -> list B) (ls : list (list A)) :
  flat_map f (concat ls) = flat_map (flat_map f) ls.
Proof.
  induction ls as [|l ls IH]; simpl; [reflexivity|].
  now rewrite flat_map_app, IH.
Qed.

(** X5. Both extractors work record by record: the result for two record
    sequences put end to end is, series by series and sequence by sequence,
    the result for the first followed by the result for the second. *)
Theorem extract_append (r1 r2 : list row) :
  (forall label,
     series (fst (extract_ratings (r1 ++ r2))) label =
     series (fst (extract_ratings r1)) label
     ++ series (fst (extract_ratings r2)) label) /\
  snd (extract_ratings (r1 ++ r2)) =
    snd (extract_ratings r1) ++ snd (extract_ratings r2) /\
  fst (extract_comments (r1 ++ r2)) =
    fst (extract_comments r1) ++ fst (extract_comments r2) /\
  snd (extract_comments (r1 ++ r2)) =
    snd (extract_comments r1) ++ snd (extract_comments r2).
Proof.
  repeat apply conj.
  - intros label. rewrite !extract_ratings_series. apply flat_map_app.
  - rewrite !extract_ratings_effectiveness. apply flat_map_app.
  - rewrite !extract_comments_flat. apply flat_map_app.
  - rewrite !extract_comments_flat. apply flat_map_app.
Qed.

(** All the records of the files, in processing order. *)
Definition merged_rows (eval_files : list eval_file) : list row :=
  concat (List.map snd (sorted_files eval_files)).

(** X6. Aggregating file by file gives what one extraction over all the
    records would give: each question series, the effectiveness series and
    both comment sequences of the aggregate are those extracted from the
    records of all files taken in processing order. *)
Theorem aggregate_is_extraction (eval_files : list eval_file) :
  let agg := main_aggregate eval_files in
  (forall label, In label question_labels ->
     series (all_ratings agg) label =
     series (fst (extract_ratings (merged_rows eval_files))) label) /\
  all_effectiveness agg = snd (extract_ratings (merged_rows eval_files)) /\
  all_beneficial agg = fst (extract_comments (merged_rows eval_files)) /\
  all_improvement agg = snd (extract_comments (merged_rows eval_files)).
Proof.
  intros agg. subst agg. unfold main_aggregate, merged_rows.
  destruct (process_files_spec (sorted_files eval_files)) as (Hr & He & Hb & Hi).
  assert (Hmerge : forall (B : Type) (f : row -> list B),
            flat_map f (concat (List.map snd (sorted_files eval_files))) =
            flat_map (fun file : eval_file => flat_map f (snd file))
              (sorted_files eval_files)).
  { intros B f. rewrite flat_map_concat.
    rewrite !flat_map_concat_map, map_map. reflexivity. }
  repeat apply conj.
  - intros label Hin. rewrite (Hr label Hin), extract_ratings_series, Hmerge.
    apply flat_map_ext. intros f. apply extract_ratings_series.
  - rewrite He, extract_ratings_effectiveness, Hmerge.
    apply flat_map_ext. intros f. apply extract_ratings_effectiveness.
  - rewrite Hb, (extract_comments_flat (concat _)). cbn [fst]. rewrite Hmerge.
    apply flat_map_ext. intros f. now rewrite extract_comments_flat.
  - rewrite Hi, (extract_comments_flat (concat _)). cbn [snd]. rewrite Hmerge.
    apply flat_map_ext. intros f. now rewrite extract_comments_flat.
Qed.

(** ** The file loop *)

Lemma NoDup_map_eq {A B : Type} (f : A -> B) (l : list A) (x y : A) :
  List.NoDup (List.map f l) -> In x l -> In y l -> f x = f y -> x = y.
Proof.
  induction l as [|z l IH]; intros Hnd Hx Hy Hf; [destruct Hx|].
  simpl in Hnd. apply List.NoDup_cons_iff in Hnd. destruct Hnd as [Hz Hnd].
  destruct Hx as [->|Hx], Hy as [->|Hy].
  - reflexivity.
  - exfalso. apply Hz. rewrite Hf. now apply in_map.
  - exfalso. apply Hz. rewrite <- Hf. now apply in_map.
  - now apply IH.
Qed.

(** X7. The order in which the files are found does not matter: two
    listings of the same files, whose names are all different, are sorted
    into the same sequence and give the same aggregate. *)
Theorem main_aggregate_discovery_order (files files' : list eval_file) :
  Permutation files files' ->
  List.NoDup (List.map fst files) ->
  sorted_files files = sorted_files files' /\
  main_aggregate files = main_aggregate files'.
Proof.
  intros Hp Hnd.
  assert (Hs : sorted_files files = sorted_files files').
  { destruct (sorted_files_spec files) as [Hp1 Hs1].
    destruct (sorted_files_spec files') as [Hp2 Hs2].
    apply (StronglySorted_unique_strong
             (fun a b : eval_file => String.leb (fst a) (fst b) = true));
      [|exact Hs1|exact Hs2|].
    - intros x1 x2 H1 H2 Hle Hge.
      apply (NoDup_map_eq fst files); [exact Hnd| | |].
      + apply (Permutation_in _ Hp1). now apply list_elem_of_In.
      + apply (Permutation_in _ (Permutation_sym Hp)).
        apply (Permutation_in _ Hp2). now apply list_elem_of_In.
      + now apply String.leb_antisym.
    - rewrite Hp1, Hp2. exact Hp. }
  split; [exact Hs|]. unfold main_aggregate. now rewrite Hs.
Qed.

Lemma main_aggregate_discovery_order_witness :
  Permutation sample_files (rev sample_files) /\
  List.NoDup (List.map fst sample_files) /\
  sorted_files sample_files = sorted_files (rev sample_files) /\
  main_aggregate sample_files = main_aggregate (rev sample_files).
Proof.
  assert (Hp : Permutation sample_files (rev sample_files))
    by apply Permutation_rev.
  assert (Hnd : List.NoDup (List.map fst sample_files)).
  { apply NoDup_ListNoDup, (bool_decide_unpack _). vm_compute. reflexivity. }
  split; [exact Hp|]. split; [exact Hnd|].
  apply (main_aggregate_discovery_order sample_files (rev sample_files) Hp Hnd).
Defined.

(** The summary of one file, from that file alone. *)
Definition summary_of (f : eval_file) : course_summary :=
  let '(semester, course, section) := parse_course_info (fst f) in
  CourseSummary semester course section (Z.of_nat (length (snd f)))
    (snd (extract_ratings (snd f))) (fst (extract_ratings (snd f)))
    (fst (extract_comments (snd f))) (snd (extract_comments (snd f))).

Lemma process_file_summary agg (f : eval_file) :
  course_summaries (process_file agg f) = course_summaries agg ++ [summary_of f].
Proof.
  destruct f as [name responses]. unfold process_file, summary_of. cbn [fst snd].
  destruct (parse_course_info name) as [[semester course] section].
  destruct (extract_ratings responses) as [ratings effectiveness].
  destruct (extract_comments responses) as [beneficial improvement].
  reflexivity.
Qed.

(** X8. There is one course summary per file, in processing order, and the
    summary of a file depends on that file only, not on the files processed
    before it; the respondent counts of the summaries add up to the number
    of records of all the files. *)
Theorem course_summaries_per_file (eval_files : list eval_file) :
  course_summaries (main_aggregate eval_files) =
    List.map summary_of (sorted_files eval_files) /\
  length (course_summaries (main_aggregate eval_files)) = length eval_files /\
  fold_right Z.add 0
    (List.map cs_n_responses (course_summaries (main_aggregate eval_files)))
  = Z.of_nat (length (merged_rows eval_files)).
Proof.
  assert (Hsum : course_summaries (main_aggregate eval_files) =
                 List.map summary_of (sorted_files eval_files)).
  { unfold main_aggregate, process_files.
    rewrite (fold_left_obs course_summaries process_file
               (fun f => [summary_of f])).
    - simpl. rewrite flat_map_concat_map.
      induction (sorted_files eval_files) as [|f l IH]; simpl; congruence.
    - intros s f. apply process_file_summary. }
  split; [exact Hsum|]. split.
  - rewrite Hsum, length_map.
    apply Permutation_length. apply sorted_files_spec.
  - rewrite Hsum. clear Hsum. unfold merged_rows.
    induction (sorted_files eval_files) as [|f l IH]; simpl; [reflexivity|].
    rewrite IH, length_app.
    unfold summary_of at 1.
    destruct (parse_course_info (fst f)) as [[semester course] section].
    cbn [cs_n_responses]. lia.
Qed.

(** X9. A file with no records adds a summary with a respondent count of
    zero and leaves every aggregate sequence as it was. *)
Theorem process_file_empty (agg : aggregate) (name : string) :
  let agg' := process_file agg (name, []) in
  all_ratings agg' = all_ratings agg /\
  all_effectiveness agg' = all_effectiveness agg /\
  all_beneficial agg' = all_beneficial agg /\
  all_improvement agg' = all_improvement agg /\
  exists cs, course_summaries agg' = course_summaries agg ++ [cs] /\
             cs_n_responses cs = 0 /\ cs_ratings cs = ∅ /\
             cs_effectiveness cs = [].
Proof.
  intros agg'. subst agg'. unfold process_file.
  destruct (parse_course_info name) as [[semester course] section].
  cbn [extract_ratings extract_comments fold_left length
       all_ratings all_effectiveness all_beneficial all_improvement course_summaries].
  rewrite !app_nil_r.
  split.
  - apply fold_left_fixed. intros label _ acc. unfold merge_label.
    now rewrite lookup_empty.
  - repeat split. eexists. repeat split.
Qed.

(** ** Keys of the rating dictionaries *)

(** Every key present is a question label and holds at least one score. *)
Definition labelled (d : gmap string (list Z)) : Prop :=
  forall label l, d !! label = Some l -> l <> [] /\ In label question_labels.

Lemma fold_left_invariant {S A : Type} (Inv : S -> Prop) (step : S -> A -> S)
    (l : list A) (s : S) :
  (forall s x, In x l -> Inv s -> Inv (step s x)) ->
  Inv s -> Inv (fold_left step l s).
Proof.
  revert s. induction l as [|x l IH]; intros s Hstep Hs; simpl; [exact Hs|].
  apply IH.
  - intros s' y Hy. apply Hstep. simpl; auto.
  - apply Hstep; [simpl; auto|exact Hs].
Qed.

Lemma labelled_insert (d : gmap string (list Z)) (label : string) (l : list Z) :
  labelled d -> l <> [] -> In label question_labels ->
  labelled (<[label := l]> d).
Proof.
  intros Hd Hl Hin k l' Hk. destruct (String.eqb_spec label k) as [->|Hne].
  - rewrite lookup_insert_eq in Hk. inversion Hk; subst. auto.
  - rewrite lookup_insert_ne in Hk by exact Hne. now apply Hd.
Qed.

Lemma extract_ratings_labelled (responses : list row) :
  labelled (fst (extract_ratings responses)).
Proof.
  unfold extract_ratings.
  apply (fold_left_invariant (fun st => labelled (fst st))).
  - intros st resp _ Hst.
    apply (fold_left_invariant (fun st => labelled (fst st))); [|exact Hst].
    intros [m e] [col value] _ Hm. unfold extract_ratings_item. cbn [fst] in *.
    apply (fold_left_invariant labelled); [|exact Hm].
    intros m' [q label] Hq Hm'. unfold likert_step.
    destruct (_ && _); [|exact Hm'].
    destruct (LIKERT_MAP !! value) as [n|]; [|exact Hm'].
    unfold dd_append. apply labelled_insert; [exact Hm'| |].
    + intros H. now apply app_eq_nil in H as [_ H].
    + unfold question_labels. now apply (in_map snd) in Hq.
  - intros label l H. cbn [fst] in H. now rewrite lookup_empty in H.
Qed.

Lemma process_files_labelled (files : list eval_file) :
  labelled (all_ratings (process_files files)).
Proof.
  unfold process_files.
  apply (fold_left_invariant (fun agg => labelled (all_ratings agg))).
  - intros agg [name responses] _ Hagg. unfold process_file.
    destruct (parse_course_info name) as [[semester course] section].
    destruct (extract_ratings responses) as [ratings effectiveness].
    destruct (extract_comments responses) as [beneficial improvement].
    cbn [all_ratings].
    apply (fold_left_invariant labelled); [|exact Hagg].
    intros acc label Hlabel Hacc. unfold merge_label.
    destruct (ratings !! label) as [[|x xs]|]; try exact Hacc.
    unfold dd_extend. apply labelled_insert; [exact Hacc| |exact Hlabel].
    intros H. now apply app_eq_nil in H as [_ H].
  - intros label l H. cbn [all_ratings empty_aggregate] in H.
    now rewrite lookup_empty in H.
Qed.

(** X10. The rating dictionary of a file, and the aggregate one, hold only
    question labels as keys and no empty list: a label is a key exactly
    when at least one score was recorded for it, so the second half of the
    test [label in ratings and ratings[label]] never fails on its own. *)
Theorem rating_keys_have_scores (responses : list row) (files : list eval_file) :
  labelled (fst (extract_ratings responses)) /\
  labelled (all_ratings (process_files files)) /\
  (forall label,
     is_Some (fst (extract_ratings responses) !! label) <->
     series (fst (extract_ratings responses)) label <> []) /\
  (forall label,
     is_Some (all_ratings (process_files files) !! label) <->
     has_data (all_ratings (process_files files)) label = true).
Proof.
  assert (H1 := extract_ratings_labelled responses).
  assert (H2 := process_files_labelled files).
  split; [exact H1|]. split; [exact H2|]. split.
  - intros label. unfold series. split.
    + intros [l Hl]. rewrite Hl. cbn [default]. now apply (H1 label l).
    + destruct (fst (extract_ratings responses) !! label) as [l|]; [eauto|].
      cbn [default]. congruence.
  - intros label. unfold has_data. split.
    + intros [l Hl]. rewrite Hl. destruct l as [|x l]; [|reflexivity].
      now destruct (H2 label [] Hl).
    + destruct (all_ratings (process_files files) !! label) as [[|x l]|];
        [discriminate|eauto|discriminate].
Qed.

(** ** Statistics reducer *)

Lemma py_sum_bounds (lo hi : Z) (values : list Z) :
  (forall x, In x values -> lo <= x <= hi) ->
  lo * Z.of_nat (length values) <= py_sum values <= hi * Z.of_nat (length values).
Proof.
  induction values as [|x l IH]; intros H.
  - unfold py_sum. simpl. lia.
  - rewrite py_sum_cons. simpl length. rewrite Nat2Z.inj_succ.
    assert (Hx := H x (or_introl eq_refl)).
    assert (Hl := IH (fun y Hy => H y (or_intror Hy))). lia.
Qed.

Lemma mean_of_bounds (lo hi : Z) (values : list Z) :
  values <> [] ->
  (forall x, In x values -> lo <= x <= hi) ->
  (inject_Z lo <= mean_of values <= inject_Z hi)%Q.
Proof.
  intros Hne H. rewrite (mean_of_Qdiv values Hne).
  assert (Hn : 0 < Z.of_nat (length values))
    by (destruct values; [contradiction|simpl length; lia]).
  assert (Hq : (0 < inject_Z (Z.of_nat (length values)))%Q).
  { change 0%Q with (inject_Z 0). now rewrite <- Zlt_Qlt. }
  destruct (py_sum_bounds lo hi values H) as [Hlo Hhi]. split.
  - apply Qle_shift_div_l; [exact Hq|].
    rewrite <- inject_Z_mult, <- Zle_Qle. exact Hlo.
  - apply Qle_shift_div_r; [exact Hq|].
    rewrite <- inject_Z_mult, <- Zle_Qle. exact Hhi.
Qed.

Lemma calculate_stats_Some (values : list Z) (mean : Q) (sd : StdDev) :
  calculate_stats values = Ok (Some mean, Some sd) ->
  values <> [] /\ mean = mean_of values /\ sd = stdev_of values.
Proof.
  destruct values as [|x xs]; [discriminate|].
  rewrite calculate_stats_cons. intros H. inversion H. auto.
Qed.

(** X11. The mean lies between the smallest and the largest value: when
    every value is between [lo] and [hi], so is the mean the reducer
    returns; and the deviation it returns is the root of a fraction that is
    not negative. *)
Theorem calculate_stats_bounds (values : list Z) (lo hi : Z)
    (mean : Q) (sd : StdDev) :
  calculate_stats values = Ok (Some mean, Some sd) ->
  (forall x, In x values -> lo <= x <= hi) ->
  (inject_Z lo <= mean <= inject_Z hi)%Q /\ (0 <= radicand sd)%Q.
Proof.
  intros Hcalc Hrange.
  apply calculate_stats_Some in Hcalc. destruct Hcalc as (Hne & -> & ->).
  split; [now apply mean_of_bounds|apply stdev_of_nonneg].
Qed.

Lemma calculate_stats_bounds_witness :
  calculate_stats [5; 3; 5] = Ok (Some (13 # 3)%Q, Some (Sqrt (4 # 3))) /\
  (forall x, In x [5; 3; 5] -> 1 <= x <= 5) /\
  ((inject_Z 1 <= 13 # 3 <= inject_Z 5)%Q /\ (0 <= radicand (Sqrt (4 # 3)))%Q).
Proof.
  assert (Hc : calculate_stats [5; 3; 5] = Ok (Some (13 # 3)%Q, Some (Sqrt (4 # 3))))
    by (vm_compute; reflexivity).
  assert (Hr : forall x, In x [5; 3; 5] -> 1 <= x <= 5)
    by (simpl; intros x [<-|[<-|[<-|[]]]]; lia).
  split; [exact Hc|]. split; [exact Hr|].
  apply (calculate_stats_bounds [5; 3; 5] 1 5 (13 # 3)%Q (Sqrt (4 # 3)) Hc Hr).
Defined.

Lemma all_equal_repeat (k : Z) (values : list Z) :
  (forall x, In x values -> x = k) -> values = repeat k (length values).
Proof.
  induction values as [|x l IH]; intros H; simpl; [reflexivity|].
  rewrite (H x) by (simpl; auto). f_equal. apply IH.
  intros y Hy. apply H. simpl; auto.
Qed.

Lemma stdev_of_repeat (k : Z) (n : nat) : stdev_of (repeat k n) = Sqrt 0.
Proof.
  unfold stdev_of. rewrite map_repeat, !py_sum_repeat, repeat_length.
  destruct (Z.of_nat n >? 1); [|reflexivity].
  replace (Z.of_nat n * (Z.of_nat n * (k * k))
           - Z.of_nat n * k * (Z.of_nat n * k)) with 0 by ring.
  now rewrite fraction_zero.
Qed.

Lemma Qsquare_zero (d : Q) : (d * d == 0)%Q -> (d == 0)%Q.
Proof. intros H. now destruct (Qmult_integral d d H). Qed.

Lemma Qsquare_nonneg (d : Q) : (0 <= d * d)%Q.
Proof.
  destruct (Qlt_le_dec d 0) as [Hneg|Hpos].
  - assert (Heq : (d * d == (- d) * (- d))%Q) by ring. rewrite Heq.
    apply Qmult_le_0_compat; apply (Qopp_le_compat d 0); now apply Qlt_le_weak.
  - now apply Qmult_le_0_compat.
Qed.

(** A sum of squared deviations is zero only when every value is at the
    centre. *)
Lemma sum_sq_dev_zero (m : Q) (values : list Z) :
  (sum_sq_dev m values == 0)%Q ->
  forall x, In x values -> (inject_Z x == m)%Q.
Proof.
  induction values as [|y l IH]; intros H x Hx; [destruct Hx|].
  simpl in H. fold (sum_sq_dev m l) in H.
  set (d := (inject_Z y - m)%Q) in *.
  assert (Hd := Qsquare_nonneg d).
  assert (Hl := sum_sq_dev_nonneg m l).
  assert (Hd0 : (d * d == 0)%Q).
  { apply Qle_antisym; [|exact Hd]. rewrite <- H.
    rewrite <- (Qplus_0_r (d * d)) at 1.
    apply Qplus_le_compat; [apply Qle_refl|exact Hl]. }
  assert (Hl0 : (sum_sq_dev m l == 0)%Q).
  { rewrite Hd0, Qplus_0_l in H. exact H. }
  destruct Hx as [<-|Hx].
  - apply Qsquare_zero in Hd0. subst d.
    assert (Heq : (inject_Z y == (inject_Z y - m) + m)%Q) by ring.
    rewrite Heq, Hd0. ring.
  - now apply IH.
Qed.

(** X12. The deviation the reducer returns is zero exactly when all the
    values are equal: a zero deviation means unanimous answers. *)
Theorem zero_deviation_unanimous (values : list Z) (mean : Q) (sd : StdDev) :
  calculate_stats values = Ok (Some mean, Some sd) ->
  (sd = Sqrt 0 <-> forall x y, In x values -> In y values -> x = y).
Proof.
  intros Hcalc. apply calculate_stats_Some in Hcalc.
  destruct Hcalc as (Hne & _ & ->). split.
  - intros Hsd x y Hx Hy.
    destruct (le_lt_dec 2 (length values)) as [Hlen|Hlen].
    + assert (Hrad := stdev_of_sum_sq_dev values Hlen).
      rewrite Hsd in Hrad. cbn [radicand] in Hrad.
      assert (Hc : ~ (inject_Z (Z.of_nat (length values) - 1) == 0)%Q).
      { change 0%Q with (inject_Z 0). rewrite inject_Z_injective. lia. }
      assert (Hsum : (sum_sq_dev (mean_of values) values == 0)%Q).
      { assert (Heq : (sum_sq_dev (mean_of values) values ==
                       sum_sq_dev (mean_of values) values
                       / inject_Z (Z.of_nat (length values) - 1)
                       * inject_Z (Z.of_nat (length values) - 1))%Q)
          by (field; exact Hc).
        rewrite Heq, <- Hrad. ring. }
      apply inject_Z_injective.
      rewrite (sum_sq_dev_zero _ _ Hsum x Hx), (sum_sq_dev_zero _ _ Hsum y Hy).
      reflexivity.
    + destruct values as [|v [|w l]]; simpl in Hlen; try lia; [contradiction|].
      destruct Hx as [<-|[]], Hy as [<-|[]]. reflexivity.
  - intros Heq. destruct values as [|k l]; [contradiction|].
    rewrite (all_equal_repeat k (k :: l)).
    + apply stdev_of_repeat.
    + intros x Hx. apply Heq; simpl; auto.
Qed.

Lemma zero_deviation_unanimous_witness :
  calculate_stats [4; 4; 4] = Ok (Some 4%Q, Some (Sqrt 0)) /\
  (Sqrt 0 = Sqrt 0 <-> forall x y, In x [4; 4; 4] -> In y [4; 4; 4] -> x = y).
Proof.
  assert (Hc : calculate_stats [4; 4; 4] = Ok (Some 4%Q, Some (Sqrt 0)))
    by (vm_compute; reflexivity).
  split; [exact Hc|].
  apply (zero_deviation_unanimous [4; 4; 4] 4%Q (Sqrt 0) Hc).
Defined.

(** ** Ranking of the aggregate *)

Lemma main_aggregate_scores (eval_files : list eval_file) (label : string) (v : Z) :
  In label question_labels ->
  In v (series (all_ratings (main_aggregate eval_files)) label) -> 1 <= v <= 5.
Proof.
  intros Hlabel Hv. unfold main_aggregate in Hv.
  destruct (process_files_spec (sorted_files eval_files)) as (Hr & _).
  rewrite (Hr label Hlabel) in Hv.
  apply in_flat_map in Hv. destruct Hv as (f & _ & Hv).
  rewrite extract_ratings_series in Hv.
  apply in_flat_map in Hv. destruct Hv as (resp & _ & Hv).
  apply in_flat_map in Hv. destruct Hv as ([col value] & _ & Hv).
  unfold label_score in Hv.
  apply in_flat_map in Hv. destruct Hv as ([q l] & _ & Hv). simpl in Hv.
  destruct (String.eqb l label); [|destruct Hv].
  apply likert_score_In in Hv. now apply (LIKERT_MAP_range value).
Qed.

(** X13. Every entry of the ranking built from the files is for a question
    label, counts at least one score, and has a mean between 1 and 5 and a
    deviation that is the root of a fraction that is not negative: the
    ranking never raises and never holds a statistic of an empty series. *)
Theorem main_ranking_in_range (eval_files : list eval_file) :
  exists sorted_ratings,
    aggregate_ranking (all_ratings (main_aggregate eval_files)) = Ok sorted_ratings /\
    (length sorted_ratings <= length question_labels)%nat /\
    forall t, In t sorted_ratings ->
      In (rs_label t) question_labels /\
      1 <= rs_n t /\
      (1 <= rs_mean t <= 5)%Q /\ (0 <= radicand (rs_std t))%Q.
Proof.
  destruct (aggregate_ranking_sorted (all_ratings (main_aggregate eval_files)))
    as (sorted & Heq & Hperm & _ & Hstats & _).
  exists sorted. split; [exact Heq|]. split.
  - rewrite <- (length_map rs_label sorted), (Permutation_length Hperm).
    apply List.filter_length_le.
  - intros t Ht. destruct (Hstats t Ht) as (Hne & Hcalc & Hn).
    assert (Hlabel : In (rs_label t) question_labels).
    { assert (Hin : In (rs_label t) (List.map rs_label sorted)) by now apply in_map.
      apply (Permutation_in _ Hperm) in Hin. now apply filter_In in Hin. }
    split; [exact Hlabel|]. split.
    + rewrite Hn.
      destruct (series (all_ratings (main_aggregate eval_files)) (rs_label t));
        [contradiction|simpl length; lia].
    + apply calculate_stats_Some in Hcalc. destruct Hcalc as (_ & -> & ->).
      split; [|apply stdev_of_nonneg].
      apply (mean_of_bounds 1 5); [exact Hne|].
      intros v Hv. now apply (main_aggregate_scores eval_files (rs_label t)).
Qed.

(** ** The two slices of the ranking *)


(** X14. When at most three question labels have data, the highest-rated
    slice and the growth-area slice are both the whole ranking, hence the
    same list. *)
Theorem ranking_slices_small (all_ratings : gmap string (list Z)) :
  (length (List.filter (has_data all_ratings) question_labels) <= 3)%nat ->
  exists sorted_ratings,
    aggregate_ranking all_ratings = Ok sorted_ratings /\
    top3 sorted_ratings = sorted_ratings /\
    bottom3 sorted_ratings = sorted_ratings.
Proof.
  intros Hlen.
  destruct (aggregate_ranking_sorted all_ratings) as (sorted & Heq & Hperm & _).
  exists sorted. split; [exact Heq|].
  assert (Hl : (length sorted <= 3)%nat).
  { rewrite <- (length_map rs_label sorted), (Permutation_length Hperm).
    exact Hlen. }
  unfold top3, bottom3, slice_first, slice_last. split.
  - now apply take_ge.
  - replace (length sorted - 3)%nat with 0%nat by lia. reflexivity.
Qed.

Definition two_questions : gmap string (list Z) :=
  list_to_map [ ("Challenged", [4; 5]); ("Interest", [5; 5]) ].

Lemma ranking_slices_small_witness :
  (length (List.filter (has_data two_questions) question_labels) <= 3)%nat /\
  exists sorted_ratings,
    aggregate_ranking two_questions = Ok sorted_ratings /\
    top3 sorted_ratings = sorted_ratings /\
    bottom3 sorted_ratings = sorted_ratings.
Proof.
  assert (Hlen : (length (List.filter (has_data two_questions) question_labels)
                  <= 3)%nat) by (vm_compute; lia).
  split; [exact Hlen|].
  apply (ranking_slices_small two_questions Hlen).
Defined.



(** With four ranked labels the growth areas do hold an entry that ranks
    above one of the highest-rated ones. *)
Example ranking_slices_four :
  let sorted_ratings :=
    [ (5%Q, Sqrt 0, "a", 1); (4%Q, Sqrt 0, "b", 1);
      (3%Q, Sqrt 0, "c", 1); (2%Q, Sqrt 0, "d", 1) ] in
  In (4%Q, Sqrt 0, "b", 1) (bottom3 sorted_ratings) /\
  In (3%Q, Sqrt 0, "c", 1) (top3 sorted_ratings).
Proof. simpl. tauto. Qed.

(** ** From a label back to its question *)

Lemma full_text_spec (label text : string) :
  full_text label = Some text <-> In (text, label) QUESTION_LABELS.
Proof.
  unfold full_text. split.
  - intros H.
    assert (Hin : In text (flat_map (fun '(k, v) =>
                    if String.eqb v label then [k] else []) QUESTION_LABELS)).
    { destruct (flat_map _ QUESTION_LABELS) as [|t l]; [discriminate|].
      simpl in H. inversion H. simpl. auto. }
    apply in_flat_map in Hin. destruct Hin as ([k v] & Hkv & Hin).
    destruct (String.eqb_spec v label) as [->|]; [|destruct Hin].
    destruct Hin as [<-|[]]. exact Hkv.
  - intros Hin.
    assert (Hsel := flat_map_select snd (fun q : string * string => [fst q])
                      QUESTION_LABELS (text, label) question_labels_NoDup Hin).
    cbn [fst snd] in Hsel.
    assert (Heq : flat_map (fun '(k, v) => if String.eqb v label then [k] else [])
                    QUESTION_LABELS = [text]).
    { rewrite <- Hsel. apply flat_map_ext. now intros [k v]. }
    now rewrite Heq.
Qed.

(** X16. The reverse lookup of the LaTeX block finds a question text
    exactly for the question labels, and the text it finds is the one bound
    to the label; for any other string the list is empty and indexing it
    fails. *)
Theorem full_text_round_trip (label : string) :
  (forall text, full_text label = Some text <-> In (text, label) QUESTION_LABELS) /\
  (is_Some (full_text label) <-> In label question_labels) /\
  (forall text, In (text, label) QUESTION_LABELS ->
     full_text label = Some text /\
     List.map snd (List.filter (fun q => String.eqb (fst q) text) QUESTION_LABELS)
       = [label]).
Proof.
  split; [intros text; apply full_text_spec|]. split.
  - split.
    + intros [text H]. apply full_text_spec in H.
      unfold question_labels. now apply (in_map snd) in H.
    + intros H. unfold question_labels in H. apply in_map_iff in H.
      destruct H as ([text l] & Hl & Hin). simpl in Hl. subst l.
      exists text. now apply full_text_spec.
  - intros text Hin. split; [now apply full_text_spec|].
    unfold QUESTION_LABELS in Hin. simpl in Hin.
    repeat (destruct Hin as [Hin|Hin];
            [inversion Hin; subst; vm_compute; reflexivity|]).
    destruct Hin.
Qed.

Lemma latex_areas_Some (top : list ranked_stat) :
  (forall t, In t top -> In (rs_label t) question_labels) ->
  exists items,
    latex_areas top = Some items /\
    Forall2 (fun (t : ranked_stat) (item : string * Q * StdDev) =>
               In (fst (fst item), rs_label t) QUESTION_LABELS /\
               snd (fst item) = rs_mean t /\ snd item = rs_std t)
      top items.
Proof.
  induction top as [|[[[mean std] label] n] top IH]; intros H.
  - exists []. split; [reflexivity|constructor].
  - destruct IH as (items & Hitems & Hall).
    { intros t Ht. apply H. simpl; auto. }
    assert (Hlabel : In label question_labels)
      by (apply (H (mean, std, label, n)); simpl; auto).
    unfold question_labels in Hlabel. apply in_map_iff in Hlabel.
    destruct Hlabel as ([text l] & Hl & Hin). simpl in Hl. subst l.
    exists ((text, mean, std) :: items). split.
    + simpl. rewrite (proj2 (full_text_spec label text) Hin), Hitems. reflexivity.
    + constructor; [|exact Hall]. cbn. auto.
Qed.

(** X17. The LaTeX list of the highest-rated areas is always produced for
    the ranking of an aggregate: the reverse lookup fails for none of its
    entries, and each item carries the question text bound to the label of
    the entry, with its mean and its deviation, in ranking order. *)
Theorem latex_top_areas_spec (all_ratings : gmap string (list Z)) :
  exists sorted_ratings items,
    aggregate_ranking all_ratings = Ok sorted_ratings /\
    latex_top_areas sorted_ratings = Some items /\
    Forall2 (fun (t : ranked_stat) (item : string * Q * StdDev) =>
               In (fst (fst item), rs_label t) QUESTION_LABELS /\
               snd (fst item) = rs_mean t /\ snd item = rs_std t)
      (top3 sorted_ratings) items.
Proof.
  destruct (aggregate_ranking_sorted all_ratings) as (sorted & Heq & Hperm & _).
  destruct (latex_areas_Some (top3 sorted)) as (items & Hitems & Hall).
  { intros t Ht. unfold top3, slice_first in Ht.
    apply list_elem_of_In, elem_of_take in Ht. destruct Ht as (i & Hi & _).
    assert (Hin : In (rs_label t) (List.map rs_label sorted)).
    { apply in_map. apply list_elem_of_In, list_elem_of_lookup. eauto. }
    apply (Permutation_in _ Hperm) in Hin. now apply filter_In in Hin. }
  exists sorted, items. auto.
Qed.

(** ** Escaping for LaTeX *)

(** The five characters the clean-up escapes. *)
Definition is_special (c : ascii) : bool :=
  Ascii.eqb c "&" || Ascii.eqb c "%" || Ascii.eqb c "$"
  || Ascii.eqb c "#" || Ascii.eqb c "_".

Definition backslash : ascii := "\".

(** What one character becomes. *)
Definition escape_char (c : ascii) : string :=
  if is_special c then String backslash (String c "") else String c "".

Lemma replace_char_app (old : ascii) (new a b : string) :
  replace_char old new (a +:+ b) =
  replace_char old new a +:+ replace_char old new b.
Proof.
  induction a as [|c a IH]; simpl; [reflexivity|].
  destruct (Ascii.eqb c old); rewrite IH; [now rewrite append_assoc|reflexivity].
Qed.

Lemma latex_escape_app (a b : string) :
  latex_escape (a +:+ b) = latex_escape a +:+ latex_escape b.
Proof. unfold latex_escape. now rewrite !replace_char_app. Qed.

Lemma latex_escape_char (c : ascii) :
  latex_escape (String c "") = escape_char c.
Proof.
  destruct c as [[] [] [] [] [] [] [] []]; vm_compute; reflexivity.
Qed.

(** The five replacements in a row amount to one pass: none of them
    touches what an earlier one has put in. *)
Lemma latex_escape_cons (c : ascii) (s : string) :
  latex_escape (String c s) = escape_char c +:+ latex_escape s.
Proof.
  change (String c s) with (String c "" +:+ s).
  now rewrite latex_escape_app, latex_escape_char.
Qed.

Lemma is_special_backslash : is_special backslash = false.
Proof. reflexivity. Qed.

Fixpoint count_special (s : string) : nat :=
  match s with
  | EmptyString => 0
  | String c s' => (if is_special c then 1 else 0) + count_special s'
  end.

(** X18. The five replacements in a row amount to one pass over the
    comment: each of the characters [& % $ # _] becomes a backslash and that
    character, every other character stays as it is, in the same order, and
    nothing else is added.  So in the escaped text each of the five stands
    right after a backslash, the text is longer than the comment by the
    number of such characters, and a comment without them is unchanged. *)
Theorem latex_escape_escapes (comment : string) :
  latex_escape "" = "" /\
  (forall c s,
     latex_escape (String c s) =
     (if is_special c then String backslash (String c "") else String c "")
     +:+ latex_escape s) /\
  (forall i c, String.get i (latex_escape comment) = Some c ->
     is_special c = true ->
     exists j, i = S j /\ String.get j (latex_escape comment) = Some backslash) /\
  String.length (latex_escape comment) =
    (String.length comment + count_special comment)%nat /\
  (count_special comment = 0%nat -> latex_escape comment = comment).
Proof.
  split; [reflexivity|]. split; [exact latex_escape_cons|]. split; [|split].
  - induction comment as [|a s IH]; intros i c Hi Hc.
    + destruct i; discriminate.
    + rewrite latex_escape_cons in Hi. rewrite latex_escape_cons.
      unfold escape_char in *. destruct (is_special a) eqn:Ha; simpl in *.
      * destruct i as [|[|i]]; simpl in Hi.
        -- inversion Hi; subst. rewrite is_special_backslash in Hc. discriminate.
        -- exists 0%nat. auto.
        -- destruct (IH i c Hi Hc) as (j & -> & Hj).
           exists (S (S j)). auto.
      * destruct i as [|i]; simpl in Hi.
        -- inversion Hi; subst. congruence.
        -- destruct (IH i c Hi Hc) as (j & -> & Hj).
           exists (S j). auto.
  - induction comment as [|a s IH]; [reflexivity|].
    rewrite latex_escape_cons, length_append. unfold escape_char.
    simpl. rewrite IH. destruct (is_special a); simpl; lia.
  - induction comment as [|a s IH]; intros H; [reflexivity|].
    rewrite latex_escape_cons. unfold escape_char. simpl in H.
    destruct (is_special a); [discriminate|]. simpl. now rewrite IH.
Qed.

(** Reading an escaped text back: a backslash right before one of the five
    characters is dropped. *)
Fixpoint latex_unescape (s : string) : string :=
  match s with
  | EmptyString => EmptyString
  | String c s' =>
      if Ascii.eqb c backslash then
        match s' with
        | String d s'' =>
            if is_special d then String d (latex_unescape s'')
            else String c (latex_unescape s')
        | EmptyString => String c EmptyString
        end
      else String c (latex_unescape s')
  end.

Lemma latex_escape_head (s : string) :
  match latex_escape s with
  | EmptyString => True
  | String d _ => is_special d = false
  end.
Proof.
  destruct s as [|a s]; [exact I|].
  rewrite latex_escape_cons. unfold escape_char.
  destruct (is_special a) eqn:Ha; simpl; [reflexivity|exact Ha].
Qed.

Lemma latex_unescape_escape (comment : string) :
  latex_unescape (latex_escape comment) = comment.
Proof.
  induction comment as [|a s IH]; [reflexivity|].
  rewrite latex_escape_cons. unfold escape_char.
  destruct (is_special a) eqn:Ha.
  - simpl. rewrite Ha, IH. reflexivity.
  - simpl. destruct (Ascii.eqb_spec a backslash) as [->|Hne].
    + assert (Hhead := latex_escape_head s).
      destruct (latex_escape s) as [|d r] eqn:Hs.
      * simpl in IH. now rewrite <- IH.
      * rewrite Hhead. now rewrite IH.
    + now rewrite IH.
Qed.

(** X19. Escaping loses nothing: the comment can be read back from its
    escaped text, so two different comments never have the same escaped
    text (a backslash of the comment itself is left alone and does not get
    in the way). *)
Theorem latex_escape_injective :
  (forall comment, latex_unescape (latex_escape comment) = comment) /\
  (forall a b, latex_escape a = latex_escape b -> a = b).
Proof.
  split; [exact latex_unescape_escape|].
  intros a b H.
  rewrite <- (latex_unescape_escape a), <- (latex_unescape_escape b).
  now rewrite H.
Qed.

(** ** The numbered lists of the report *)

Lemma length_str_take (k : nat) (s : string) :
  String.length (str_take k s) = Nat.min k (String.length s).
Proof.
  unfold str_take. revert k. induction s as [|c s IH]; intros [|k]; simpl;
    try reflexivity.
  now rewrite IH.
Qed.

(** A text is cut only when it is longer than the limit, and then to the
    limit plus the three dots. *)
Lemma truncate_spec (limit : nat) (s : string) :
  ((String.length s <= limit)%nat -> truncate limit s = s) /\
  ((limit < String.length s)%nat ->
     truncate limit s = str_take limit s +:+ "..." /\
     String.length (truncate limit s) = (limit + 3)%nat) /\
  (String.length (truncate limit s) <= limit + 3)%nat /\
  (Nat.min limit (String.length s) <= String.length (truncate limit s))%nat.
Proof.
  unfold truncate, Str.len.
  destruct (Z.gtb_spec (Z.of_nat (String.length s)) (Z.of_nat limit)) as [Hgt|Hle].
  - assert (Hlen : String.length (str_take limit s +:+ "...") = (limit + 3)%nat).
    { rewrite length_append, length_str_take. simpl. lia. }
    repeat split; lia.
  - repeat split; lia.
Qed.

Lemma enumerate_In {A : Type} (l : list A) (start i : Z) (x : A) :
  In (i, x) (enumerate l start) <->
  start <= i /\ l !! Z.to_nat (i - start) = Some x.
Proof.
  revert start. induction l as [|y l IH]; intros start; simpl.
  - split; [intros []|intros [_ H]; discriminate].
  - rewrite IH. split.
    + intros [H|[Hle Hl]].
      * inversion H; subst. split; [lia|]. now rewrite Z.sub_diag.
      * split; [lia|].
        replace (Z.to_nat (i - start)) with (S (Z.to_nat (i - (start + 1)))) by lia.
        exact Hl.
    + intros [Hle Hl]. destruct (Z.eq_dec i start) as [->|Hne].
      * rewrite Z.sub_diag in Hl. simpl in Hl. inversion Hl. now left.
      * right. split; [lia|].
        replace (Z.to_nat (i - start)) with (S (Z.to_nat (i - (start + 1)))) in Hl
          by lia.
        exact Hl.
Qed.

Lemma enumerate_fst {A : Type} (l : list A) (start : Z) :
  List.map fst (enumerate l start) =
  List.map (fun k => start + Z.of_nat k) (seq 0 (length l)).
Proof.
  revert start. induction l as [|y l IH]; intros start; simpl; [reflexivity|].
  rewrite IH, <- seq_shift, map_map. f_equal; [lia|].
  apply map_ext. intros k. lia.
Qed.

Lemma enumerate_snd {A : Type} (l : list A) (start : Z) :
  List.map snd (enumerate l start) = l.
Proof.
  revert start. induction l as [|y l IH]; intros start; simpl; [reflexivity|].
  now rewrite IH.
Qed.

Lemma good_feedback_long (all_beneficial : list string) (c : string) :
  In c (good_feedback all_beneficial) -> (50 <= String.length c)%nat.
Proof.
  unfold good_feedback. rewrite filter_good_feedback_filter. intros H.
  apply filter_In in H. destruct H as [_ H]. unfold keeps in H.
  apply andb_true_iff in H. destruct H as [H _].
  apply Z.geb_le in H. unfold default_min_length, Str.len in H. lia.
Qed.

(** X20. The feedback examples printed are the first ten kept comments at
    most, numbered 1, 2, 3 and so on without a gap, each cut to 500
    characters and three dots when longer; every text printed has between
    50 and 503 characters. *)
Theorem feedback_examples_spec (all_beneficial : list string) :
  let good := good_feedback all_beneficial in
  let shown := feedback_examples good in
  length shown = Nat.min 10 (length good) /\
  List.map fst shown = List.map (fun k => 1 + Z.of_nat k) (seq 0 (length shown)) /\
  List.map snd shown = List.map (truncate 500) (slice_first 10 good) /\
  Forall (fun item => (50 <= String.length (snd item) <= 503)%nat) shown.
Proof.
  intros good shown. subst shown. unfold feedback_examples.
  assert (Hfst : forall l : list string,
            List.map fst (List.map (fun '(i, comment) => (i, truncate 500 comment))
                            (enumerate l 1)) = List.map fst (enumerate l 1)).
  { intros l. rewrite map_map. apply map_ext. now intros [i c]. }
  assert (Hsnd : forall l : list string,
            List.map snd (List.map (fun '(i, comment) => (i, truncate 500 comment))
                            (enumerate l 1)) = List.map (truncate 500) l).
  { intros l. rewrite map_map. rewrite <- (enumerate_snd l 1) at 2.
    rewrite map_map. apply map_ext. now intros [i c]. }
  assert (Hlen : length (List.map (fun '(i, comment) => (i, truncate 500 comment))
                           (enumerate (slice_first 10 good) 1))
                 = Nat.min 10 (length good)).
  { rewrite <- (length_map fst), Hfst, enumerate_fst, length_map, length_seq.
    unfold slice_first. apply length_take. }
  split; [exact Hlen|]. split; [|split; [apply Hsnd|]].
  - rewrite Hfst, enumerate_fst, Hlen. unfold slice_first.
    now rewrite length_take.
  - apply Forall_forall. intros [i text] Hin. apply list_elem_of_In in Hin.
    apply in_map_iff in Hin. destruct Hin as ([j c] & Heq & Hin).
    inversion Heq; subst. clear Heq. cbn [snd].
    apply enumerate_In in Hin. destruct Hin as [_ Hc].
    assert (Hgood : In c good).
    { unfold slice_first in Hc. apply lookup_take_Some in Hc.
      destruct Hc as [Hc _]. apply list_elem_of_In, list_elem_of_lookup. eauto. }
    apply good_feedback_long in Hgood.
    destruct (truncate_spec 500 c) as (_ & _ & Hmax & Hmin). lia.
Qed.

(** What the improvement loop does with one numbered comment. *)
Definition improvement_item (item : Z * string) : list (Z * string) :=
  let '(i, comment) := item in
  if Str.truthy comment && (Str.len comment >? 10)
  then [(i, truncate 300 comment)] else [].

Lemma improvement_numbers (l : list string) (start : Z) :
  StronglySorted Z.lt (List.map fst (flat_map improvement_item (enumerate l start))) /\
  Forall (fun i => start <= i)
    (List.map fst (flat_map improvement_item (enumerate l start))).
Proof.
  revert start. induction l as [|c l IH]; intros start; simpl.
  - split; constructor.
  - destruct (IH (start + 1)) as [Hs Hall].
    assert (Hge : Forall (fun i => start < i)
              (List.map fst (flat_map improvement_item (enumerate l (start + 1))))).
    { eapply Forall_impl; [exact Hall|]. intros i Hi. simpl in Hi. lia. }
    destruct (Str.truthy c && (Str.len c >? 10)); simpl.
    + split; constructor; auto; try lia.
      eapply Forall_impl; [exact Hge|]. intros i Hi. simpl in Hi. lia.
    + split; [exact Hs|].
      eapply Forall_impl; [exact Hge|]. intros i Hi. simpl in Hi. lia.
Qed.

(** X21. An improvement suggestion is printed exactly when it is among the
    first five and has more than ten characters; it keeps the number of its
    position among those five, so the numbers printed increase but may
    skip, and its text is cut to 300 characters and three dots when
    longer, so it has between 11 and 303 characters. *)
Theorem improvement_sample_spec (all_improvement : list string) :
  (forall i text,
     In (i, text) (improvement_sample all_improvement) <->
     exists comment,
       1 <= i <= 5 /\
       all_improvement !! Z.to_nat (i - 1) = Some comment /\
       (10 < String.length comment)%nat /\
       text = truncate 300 comment) /\
  StronglySorted Z.lt (List.map fst (improvement_sample all_improvement)) /\
  Forall (fun item => (11 <= String.length (snd item) <= 303)%nat)
    (improvement_sample all_improvement).
Proof.
  assert (Hin : forall i text,
     In (i, text) (improvement_sample all_improvement) <->
     exists comment,
       1 <= i <= 5 /\
       all_improvement !! Z.to_nat (i - 1) = Some comment /\
       (10 < String.length comment)%nat /\
       text = truncate 300 comment).
  { intros i text. unfold improvement_sample, slice_first. split.
    - intros H. apply in_flat_map in H. destruct H as ([j c] & Hjc & H).
      apply enumerate_In in Hjc. destruct Hjc as [Hj Hc].
      apply lookup_take_Some in Hc. destruct Hc as [Hc Hlt].
      destruct (Str.truthy c && (Str.len c >? 10)) eqn:Htest; [|destruct H].
      destruct H as [H|[]]. inversion H; subst. clear H.
      apply andb_true_iff in Htest. destruct Htest as [_ Hlen].
      apply Z.gtb_lt in Hlen. unfold Str.len in Hlen.
      exists c. repeat split; auto; lia.
    - intros (c & Hi & Hc & Hlen & ->).
      apply in_flat_map. exists (i, c). split.
      + apply enumerate_In. split; [lia|].
        apply lookup_take_Some. split; [exact Hc|lia].
      + assert (Htest : Str.truthy c && (Str.len c >? 10) = true).
        { apply andb_true_iff. split.
          - destruct c; [simpl in Hlen; lia|reflexivity].
          - apply Z.gtb_lt. unfold Str.len. lia. }
        rewrite Htest. simpl. auto. }
  split; [exact Hin|]. split.
  - unfold improvement_sample.
    apply (improvement_numbers (slice_first 5 all_improvement) 1).
  - apply Forall_forall. intros [i text] H. apply list_elem_of_In in H.
    apply Hin in H. destruct H as (c & _ & _ & Hlen & ->). cbn [snd].
    destruct (truncate_spec 300 c) as (_ & _ & Hmax & Hmin). lia.
Qed.

(** X22. The LaTeX feedback list holds, in order, one item for each of the
    first three kept comments at most: the escaped comment, cut to 200
    characters and three dots when the escaped text is longer.  So no item
    is longer than 203 characters, and an item whose escaped text fits in
    200 characters is that escaped text and reads back as its comment. *)
Theorem latex_feedback_spec (all_beneficial : list string) :
  let good := good_feedback all_beneficial in
  latex_feedback good =
    List.map (fun comment => truncate 200 (latex_escape comment))
      (slice_first 3 good) /\
  length (latex_feedback good) = Nat.min 3 (length good) /\
  Forall (fun item => (String.length item <= 203)%nat) (latex_feedback good) /\
  Forall2 (fun comment item =>
             (String.length (latex_escape comment) <= 200)%nat ->
             item = latex_escape comment /\ latex_unescape item = comment)
    (slice_first 3 good) (latex_feedback good).
Proof.
  intros good. unfold latex_feedback, slice_first.
  split; [reflexivity|]. split; [|split].
  - rewrite length_map. apply length_take.
  - apply Forall_forall. intros item H. apply list_elem_of_In in H.
    apply in_map_iff in H. destruct H as (c & <- & _). unfold latex_item.
    destruct (truncate_spec 200 (latex_escape c)) as (_ & _ & Hmax & _). lia.
  - induction (take 3 good) as [|c l IH]; simpl; constructor; [|exact IH].
    intros Hlen. unfold latex_item.
    destruct (truncate_spec 200 (latex_escape c)) as (Hsame & _).
    rewrite (Hsame Hlen). split; [reflexivity|apply latex_unescape_escape].
Qed.

(** ** The sentinel of the parser *)

Lemma semester_not_unknown (semester rest : string) :
  In semester semesters -> semester +:+ rest <> "Unknown".
Proof.
  unfold semesters. simpl. intros [<-|[<-|[<-|[]]]]; simpl; discriminate.
Qed.

(** X23. The sentinel triple is returned only when the file name does not
    hold the pattern, so it can be told from every parsed result; and a
    parsed result is a semester name, a space and four digits, then [CMSI],
    white space and digits, then a section of digits. *)
Theorem parse_course_info_shape (filename : string) :
  (parse_course_info filename = unknown_course <->
   forall o, ~ OccursIn filename o) /\
  (parse_course_info filename <> unknown_course ->
   exists semester year ws num section,
     parse_course_info filename =
       (semester +:+ " " +:+ year, "CMSI" +:+ ws +:+ num, section) /\
     In semester semesters /\
     String.length year = 4%nat /\ all_chars Regex.digit year = true /\
     some_of Regex.space ws /\ some_of Regex.digit num /\
     some_of Regex.digit section).
Proof.
  assert (Hsearch := search_course_pattern filename).
  unfold parse_course_info.
  destruct (Regex.search course_pattern filename) as [m|].
  - destruct Hsearch as (o & [[Hocc Hwf] _] & ->).
    destruct (o_captures_groups o) as (-> & -> & -> & ->).
    assert (Hwf' := Hwf).
    destruct Hwf' as (Hsem & _ & Hy & Hy' & _ & Hw2 & Hn & _ & Hs).
    split.
    + split.
      * intros H. apply (f_equal (fun t => fst (fst t))) in H. cbn [fst] in H.
        exfalso. exact (semester_not_unknown (o_semester o) _ Hsem H).
      * intros Hnone. exfalso. apply (Hnone o). split; assumption.
    + intros _. exists (o_semester o), (o_year o), (o_ws2 o), (o_num o), (o_section o).
      unfold o_course. auto 10.
  - split.
    + split; [intros _; exact Hsearch|reflexivity].
    + intros H. now contradiction H.
Qed.
